(** * focker: a toy container runtime (main.go)

  A shallow embedding of [main.go] (the version with volume mappings and
  [pivotRoot]) and the properties of its two-phase bootstrap:
  the launcher ([run] with [isChild = false]) re-executes the program with
  the internal [_child] command inside new namespaces, and the child
  ([run] with [isChild = true]) sets the hostname, provisions the root
  filesystem, mounts the volumes, pivots the root, mounts procfs and runs
  the user's command.

  The program talks to the kernel all the time, so it is embedded in a
  state-and-exit monad: the state records every operation the process
  performs on the operating system together with the answer it got, and
  the answers come from a [World] the theorems quantify over. *)

From stdpp Require Import base list strings.
From Stdlib Require Import ZArith Lia Ascii.

Open Scope Z_scope.
Open Scope string_scope.
Open Scope list_scope.

(** ** The Go library functions main.go calls on strings and paths *)

Module strings.

(** [strings.HasPrefix(s, prefix)]. *)
Definition HasPrefix (s prefix : string) : bool := String.prefix prefix s.

(** [s[n:]] for [n <= len(s)]. *)
Fixpoint drop_bytes (n : nat) (s : string) : string :=
  match n, s with
  | S k, String _ r => drop_bytes k r
  | _, _ => s
  end.

(** [strings.TrimPrefix(s, prefix)]: [s] without the leading [prefix], or
    [s] itself when it does not start with [prefix]. *)
Definition TrimPrefix (s prefix : string) : string :=
  if HasPrefix s prefix then drop_bytes (String.length prefix) s else s.

(** The pieces of [s] between the occurrences of a non-empty [sep], found
    from left to right without overlap.  [skip] counts the bytes of an
    occurrence of [sep] that are still to be dropped. *)
Fixpoint genSplit (sep : string) (skip : nat) (s : string) {struct s} : list string :=
  match s with
  | EmptyString => [""]
  | String c r =>
      match skip with
      | S k => genSplit sep k r
      | O =>
          if String.prefix sep s
          then "" :: genSplit sep (String.length sep - 1) r
          else match genSplit sep O r with
               | piece :: pieces => String c piece :: pieces
               | [] => [String c ""]
               end
      end
  end.

Fixpoint explode (s : string) : list string :=
  match s with
  | EmptyString => []
  | String c r => String c "" :: explode r
  end.

(** [strings.Split(s, sep)]: one more piece than there are occurrences of
    [sep]; with an empty [sep] the string is cut after every character. *)
Definition Split (s sep : string) : list string :=
  match sep with
  | EmptyString => explode s
  | _ => genSplit sep O s
  end.

(** [strings.Join(elems, sep)]. *)
Definition Join (elems : list string) (sep : string) : string :=
  String.concat sep elems.

End strings.

Module filepath.

(** One path element of [filepath.Clean] on Unix: empty elements and [.]
    vanish, [..] removes the element before it, except at the start of a
    relative path, where it stays, and at the root, where it vanishes.
    [out] holds the elements kept so far, the last one first. *)
Definition clean_elem (rooted : bool) (out : list string) (elem : string) : list string :=
  if String.eqb elem "" || String.eqb elem "." then out
  else if String.eqb elem ".." then
    match out with
    | top :: below => if String.eqb top ".." then elem :: out else below
    | [] => if rooted then [] else [elem]
    end
  else elem :: out.

(** [filepath.Clean(path)] on Unix (separator [/], no volume names). *)
Definition Clean (path : string) : string :=
  if String.eqb path "" then "."
  else
    let rooted := strings.HasPrefix path "/" in
    let out := rev (fold_left (clean_elem rooted) (strings.Split path "/") []) in
    if rooted then "/" +:+ strings.Join out "/"
    else match out with
         | [] => "."
         | _ => strings.Join out "/"
         end.

(** [filepath.Join(elem...)]: the elements from the first non-empty one
    on, joined with [/] and cleaned; the empty string when there is none. *)
Fixpoint Join (elem : list string) : string :=
  match elem with
  | [] => ""
  | e :: rest => if String.eqb e "" then Join rest else Clean (strings.Join elem "/")
  end.

End filepath.

Arguments strings.Split : simpl never.
Arguments filepath.Join : simpl never.

(** ** The operating system as the program sees it *)

(** A Go [error] value, through its message. *)
Definition error : Type := string.

Module syscall.

(** Namespace flags of clone(2) and mount flags of mount(2) on Linux. *)
Definition CLONE_NEWNS : Z := 0x00020000.
Definition CLONE_NEWUTS : Z := 0x04000000.
Definition CLONE_NEWPID : Z := 0x20000000.
Definition MS_BIND : Z := 0x1000.
Definition MS_REC : Z := 0x4000.

(** The two fields of [syscall.SysProcAttr] that main.go sets. *)
Record SysProcAttr : Type := mkSysProcAttr {
  Cloneflags : Z;
  Unshareflags : Z
}.

End syscall.

Module os.

(** The three standard streams of the running process. *)
Inductive File : Type := Stdin | Stdout | Stderr.

(** How a child process ended, as [os.ProcessState] reports it. *)
Inductive ProcessState : Type :=
| Exited (code : Z)
| Signaled (sig : Z).

(** [ProcessState.ExitCode()]: the exit code of an exited process, and
    -1 when the process has not exited or was terminated by a signal; the
    method accepts a nil receiver and answers -1 for it. *)
Definition ExitCode (p : option ProcessState) : Z :=
  match p with
  | Some (Exited code) => code
  | Some (Signaled _) => -1
  | None => -1
  end.

(** A directory entry of [os.ReadDir]: its name and what [Info()] answers,
    the modification time already formatted with [time.UnixDate]. *)
Record DirEntry : Type := mkDirEntry {
  Name : string;
  Info : string * option error
}.

End os.

Module exec.

(** The fields of [exec.Cmd] that main.go reads or writes.  [Args] holds the
    command name first, as in Go. *)
Record Cmd : Type := mkCmd {
  Path : string;
  Args : list string;
  Stdin : option os.File;
  Stdout : option os.File;
  Stderr : option os.File;
  SysProcAttr : option syscall.SysProcAttr
}.

(** [exec.Command(name, arg...)]. *)
Definition Command (name : string) (arg : list string) : Cmd :=
  {| Path := name; Args := name :: arg;
     Stdin := None; Stdout := None; Stderr := None; SysProcAttr := None |}.

End exec.

(** The operations a process of this program can perform on the system.
    [Run] is [Cmd.Run] of os/exec: create a child process for the command and
    wait for it.  [Exec] is [syscall.Exec], execve(2): it replaces the image
    of the calling process and does not return when it succeeds. *)
Inductive Op : Type :=
| MkdirAll (path : string) (perm : Z)
| Sethostname (p : string)
| Mount (source target fstype : string) (flags : Z) (data : string)
| Unmount (target : string) (flags : Z)
| PivotRoot (newroot putold : string)
| Chdir (path : string)
| Exec (argv0 : string) (argv envv : list string)
| Run (c : exec.Cmd).

(** One performed operation with its answer: the error (if any), and for
    [Run] the state of the child that was waited for ([None] when no child
    was started). *)
Record Event : Type := mkEvent {
  ev_op : Op;
  ev_err : option error;
  ev_state : option os.ProcessState
}.

(** Everything outside the program.  [answer] decides each operation from
    the operations performed so far; [Intn k n] is what the [k]-th call of
    [rand.Intn] returns for bound [n]. *)
Record World : Type := mkWorld {
  answer : list Event -> Op -> option error * option os.ProcessState;
  Intn : nat -> Z -> Z;
  Executable : string * option error;
  Getpid : Z;
  ReadDir : string -> list os.DirEntry * option error
}.

(** [rand.Intn(n)] returns a number in [[0, n)]. *)
Definition rand_ok (w : World) : Prop :=
  forall (k : nat) (n : Z), 0 < n -> 0 <= Intn w k n < n.

(** ** The process: state, exits and deferred calls *)

(** An operand of [fmt.Println]. *)
Inductive Value : Type :=
| VString (s : string)
| VInt (z : Z).

(** The two deferred calls of [run]: the closure that unmounts every entry
    of [mountedVolumes], and [syscall.Unmount("/proc", 0)]. *)
Inductive Deferred : Type :=
| DeferUnmountVolumes (mountedVolumes : list string)
| DeferUnmountProc.

Record State : Type := mkState {
  st_trace : list Event;
  st_stdout : list (list Value);
  st_stderr : list string;
  st_rand : nat;
  st_defers : list Deferred
}.

Definition init_state : State :=
  {| st_trace := []; st_stdout := []; st_stderr := []; st_rand := O; st_defers := [] |}.

(** How a piece of the program ends: it returns, the process exits through
    [os.Exit], or it panics. *)
Inductive Result (A : Type) : Type :=
| Ok (a : A)
| Exit (code : Z)
| Panic (msg : string).

Arguments Ok {A} a.
Arguments Exit {A} code.
Arguments Panic {A} msg.

Definition M (A : Type) : Type := State -> Result A * State.

Definition ret {A : Type} (a : A) : M A := fun s => (Ok a, s).

Definition bind {A B : Type} (m : M A) (k : A -> M B) : M B :=
  fun s =>
    match m s with
    | (Ok a, s') => k a s'
    | (Exit code, s') => (Exit code, s')
    | (Panic msg, s') => (Panic msg, s')
    end.

Notation "x <- m ;; k" := (bind m (fun x => k))
  (at level 100, m at next level, right associativity).
Notation "m ;; k" := (bind m (fun _ => k))
  (at level 100, right associativity).

Definition panic {A : Type} (msg : string) : M A := fun s => (Panic msg, s).

(** [l[i]]: Go panics when the index is out of range. *)
Definition index {A : Type} (l : list A) (i : nat) : M A :=
  match l !! i with
  | Some a => ret a
  | None => panic "index out of range"
  end.

(** The exit status a parent sees after [os.Exit(code)], after a return
    from [main], and after a panic: the kernel keeps the low eight bits of
    the code, and the Go runtime exits with 2 on a panic. *)
Definition exit_status {A : Type} (r : Result A) : Z :=
  match r with
  | Ok _ => 0
  | Exit code => Z.land code 255
  | Panic _ => 2
  end.

(** ** main.go *)

Section Program.

Variable w : World.

(** Perform [op]: ask the world, record the event, hand back the answer. *)
Definition perform (op : Op) : M (option error * option os.ProcessState) :=
  fun s =>
    let a := answer w (st_trace s) op in
    (Ok a, {| st_trace := st_trace s ++ [mkEvent op (fst a) (snd a)];
              st_stdout := st_stdout s; st_stderr := st_stderr s;
              st_rand := st_rand s; st_defers := st_defers s |}).

(** A call that only returns an error. *)
Definition call (op : Op) : M (option error) :=
  a <- perform op ;; ret (fst a).

Definition os_MkdirAll (path : string) (perm : Z) : M (option error) :=
  call (MkdirAll path perm).

Definition syscall_Sethostname (p : string) : M (option error) :=
  call (Sethostname p).

Definition syscall_Mount (source target fstype : string) (flags : Z) (data : string)
  : M (option error) :=
  call (Mount source target fstype flags data).

Definition syscall_Unmount (target : string) (flags : Z) : M (option error) :=
  call (Unmount target flags).

Definition syscall_PivotRoot (newroot putold : string) : M (option error) :=
  call (PivotRoot newroot putold).

Definition syscall_Chdir (path : string) : M (option error) :=
  call (Chdir path).

(** [cmd.Run()]: the error it returns and [cmd.ProcessState] afterwards. *)
Definition cmd_Run (cmd : exec.Cmd) : M (option error * option os.ProcessState) :=
  perform (Run cmd).

Definition os_Executable : M (string * option error) :=
  ret (Executable w).

Definition os_Getpid : M Z :=
  ret (Getpid w).

Definition os_ReadDir (name : string) : M (list os.DirEntry * option error) :=
  ret (ReadDir w name).

(** [os.Exit(code)]: the program terminates immediately; deferred functions
    are not run. *)
Definition os_Exit {A : Type} (code : Z) : M A :=
  fun s => (Exit code, s).

Definition fmt_Println (a : list Value) : M unit :=
  fun s =>
    (Ok tt, {| st_trace := st_trace s; st_stdout := st_stdout s ++ [a];
               st_stderr := st_stderr s;
               st_rand := st_rand s; st_defers := st_defers s |}).

(** A line on standard error: [fmt.Fprintln(os.Stderr, ...)] and the output
    of the standard logger (without its time stamp). *)
Definition to_stderr (line : string) : M unit :=
  fun s =>
    (Ok tt, {| st_trace := st_trace s; st_stdout := st_stdout s;
               st_stderr := st_stderr s ++ [line];
               st_rand := st_rand s; st_defers := st_defers s |}).

Definition log_Printf (line : string) : M unit := to_stderr line.

(** [log.Fatal] and [log.Fatalf]: print, then [os.Exit(1)]. *)
Definition log_Fatal {A : Type} (line : string) : M A :=
  to_stderr line ;; os_Exit 1.

(** [defer]: push a call on the list of the running function. *)
Definition defer (d : Deferred) : M unit :=
  fun s =>
    (Ok tt, {| st_trace := st_trace s; st_stdout := st_stdout s;
               st_stderr := st_stderr s;
               st_rand := st_rand s; st_defers := d :: st_defers s |}).

(** [rand.Intn(n)]; it panics for [n <= 0]. *)
Definition rand_Intn (n : Z) : M Z :=
  if (n <=? 0)%Z then panic "invalid argument to Intn"
  else fun s =>
    (Ok (Intn w (st_rand s) n),
     {| st_trace := st_trace s; st_stdout := st_stdout s;
        st_stderr := st_stderr s;
        st_rand := S (st_rand s); st_defers := st_defers s |}).

(** The permission bits that every [os.MkdirAll] of main.go passes: the Go
    literal [0700], which is octal. *)
Definition perm_0700 : Z := 0x1c0.

Definition containersDir : string := "./containers".
Definition rootFsTarball : string := "./ubuntu-base-22.04-base-amd64.tar.gz".

Definition exitIfError (err : option error) (label : string) : M unit :=
  match err with
  | Some e =>
      if (0 <? String.length label)%nat
      then log_Fatal (label +:+ ": " +:+ e)
      else log_Fatal e
  | None => ret tt
  end.

Definition init : M unit :=
  err <- os_MkdirAll containersDir perm_0700 ;;
  exitIfError err "init containersDir".

Definition randomStringChars : string :=
  "abcdefghijklmnopqrstuvwxyzABCDEFGHIJKLMNOPQRSTUVWXYZ0123456789".

(** The loop of [randomString]: [todo] iterations from index [i] on. *)
Fixpoint randomString_loop (availableRunes : list ascii) (todo i : nat) (r : list ascii)
  : M (list ascii) :=
  match todo with
  | O => ret r
  | S todo' =>
      n <- rand_Intn (Z.of_nat (String.length randomStringChars)) ;;
      c <- index availableRunes (Z.to_nat n) ;;
      randomString_loop availableRunes todo' (S i) (<[i := c]> r)
  end.

(** [randomString(length)].  The slice [r] is [make([]rune, length)]: the
    model covers the lengths for which the Go runtime can make it, such as
    the 16 of [run]; for a huge [length] Go panics instead. *)
Definition randomString (length : Z) : M string :=
  if (length <? 1)%Z then ret ""
  else
    let availableRunes := String.list_ascii_of_string randomStringChars in
    let r := replicate (Z.to_nat length) Ascii.zero in
    r <- randomString_loop availableRunes (Z.to_nat length) O r ;;
    ret (String.string_of_list_ascii r).

Definition unzipRootFsTarball (dest src : string) : M unit :=
  err <- os_MkdirAll dest perm_0700 ;;
  exitIfError err "unzipRootFsTarball(): os.MkdirAll()" ;;
  let cmd := exec.Command "tar" ["-xzf"; src; "-C"; dest] in
  a <- cmd_Run cmd ;;
  exitIfError (fst a) "unzipRootFsTarball(): tar cmd.Run()".

Definition pivotRoot (newRoot : string) : M unit :=
  err <- syscall_Mount newRoot newRoot ""
           (Z.lor syscall.MS_BIND syscall.MS_REC) "" ;;
  exitIfError err "pivotRoot(): syscall.Mount" ;;
  let putOld := filepath.Join [newRoot; ".put_old"] in
  err <- os_MkdirAll putOld perm_0700 ;;
  exitIfError err "pivotRoot(): putold os.MkdirAll" ;;
  err <- syscall_PivotRoot newRoot putOld ;;
  exitIfError err "pivotRoot(): pivot_root" ;;
  err <- syscall_Chdir "/" ;;
  exitIfError err "chdir".

(** The loop of [run] that fills [volumeArgs] for the re-execution.  The
    slice is made with the length of [volumes], so the index is in range. *)
Fixpoint volumeArgs_loop (volumes : list string) (i : nat) (volumeArgs : list string)
  : list string :=
  match volumes with
  | [] => volumeArgs
  | vol :: rest => volumeArgs_loop rest (S i) (<[i := "-v=" +:+ vol]> volumeArgs)
  end.

(** The loop of [run] that maps the volumes into the root filesystem; [i]
    is the index of the first volume of [volumes] in the whole list, always
    in the range of [mountedVolumes], which is made with that length. *)
Fixpoint mount_loop (rootfsDir : string) (volumes : list string) (i : nat)
  (mountedVolumes : list string) : M (list string) :=
  match volumes with
  | [] => ret mountedVolumes
  | volume :: rest =>
      let parts := strings.Split volume ":" in
      (if negb (length parts =? 2)%nat
       then log_Fatal ("invalid volume mapping: " +:+ volume)
       else ret tt) ;;
      source <- index parts 0 ;;
      part1 <- index parts 1 ;;
      let target := filepath.Join [rootfsDir; part1] in
      err <- os_MkdirAll target perm_0700 ;;
      exitIfError err "mkdir target" ;;
      err <- syscall_Mount source target ""
               (Z.lor syscall.MS_BIND syscall.MS_REC) "" ;;
      exitIfError err "mount volume" ;;
      mount_loop rootfsDir rest (S i) (<[i := part1]> mountedVolumes)
  end.

(** The deferred closure of [run]: unmount every mounted volume, logging a
    failure and going on. *)
Fixpoint unmount_loop (mountedVolumes : list string) : M unit :=
  match mountedVolumes with
  | [] => ret tt
  | target :: rest =>
      err <- syscall_Unmount target 0 ;;
      match err with
      | Some e => log_Printf ("failed to unmount " +:+ target +:+ ": " +:+ e)
      | None => ret tt
      end ;;
      unmount_loop rest
  end.

Definition run_deferred (d : Deferred) : M unit :=
  match d with
  | DeferUnmountVolumes mountedVolumes => unmount_loop mountedVolumes
  | DeferUnmountProc => _ <- syscall_Unmount "/proc" 0 ;; ret tt
  end.

Fixpoint run_defers (ds : list Deferred) : M unit :=
  match ds with
  | [] => ret tt
  | d :: rest => run_deferred d ;; run_defers rest
  end.

Definition set_defers (ds : list Deferred) (s : State) : State :=
  {| st_trace := st_trace s; st_stdout := st_stdout s; st_stderr := st_stderr s;
     st_rand := st_rand s; st_defers := ds |}.

(** A function with deferred calls: they run, last deferred first, when the
    body returns or panics, and they do not run when the body leaves through
    [os.Exit]: the calls still pending stay in [st_defers]. *)
Definition with_defers {A : Type} (body : M A) : M A :=
  fun s =>
    match body (set_defers [] s) with
    | (Exit code, s') => (Exit code, s')
    | (r, s') =>
        match run_defers (st_defers s') (set_defers [] s') with
        | (Exit code, s'') => (Exit code, s'')
        | (_, s'') => (r, set_defers (st_defers s) s'')
        end
    end.

(** The block of [run] under [if isChild], which prepares the container
    around the command [cmd] that is about to run. *)
Definition run_isChild (volumes : list string) (commandName : string) (cmd : exec.Cmd)
  : M exec.Cmd :=
  rs <- randomString 16 ;;
  let containerId := "b-" +:+ rs in
  (* set hostname inside container to a random string *)
  err <- syscall_Sethostname containerId ;;
  exitIfError err "set hostname" ;;
  (* extract the rootfs tarball *)
  let rootfsDir := filepath.Join [containersDir; containerId] in
  unzipRootFsTarball rootfsDir rootFsTarball ;;
  (* map volumes to share storage between host & container *)
  mountedVolumes <-
    mount_loop rootfsDir volumes 0 (replicate (length volumes) "") ;;
  (* defer the unmounting of all volumes *)
  defer (DeferUnmountVolumes mountedVolumes) ;;
  (* set the root directory inside the container to the extracted rootfs *)
  pivotRoot rootfsDir ;;
  err <- syscall_Mount "proc" "/proc" "proc" 0 "" ;;
  exitIfError err "mount procfs" ;;
  defer DeferUnmountProc ;;
  pid <- os_Getpid ;;
  fmt_Println [VString "pid"; VInt pid; VString "running"; VString commandName] ;;
  ret cmd.

Definition run_body (args volumes : list string) (isChild : bool) : M unit :=
  (if (length args =? 0)%nat
   then log_Fatal "at least 1 argument is required"
   else ret tt) ;;
  (* if isChild is true, then it means that we're inside the container *)
  names <-
    (if isChild then
       commandName <- index args 0 ;;
       ret (commandName, if (1 <? length args)%nat then drop 1 args else [])
     else
       pe <- os_Executable ;;
       exitIfError (snd pe) "os.Executable()" ;;
       let commandArgs := ["_child"] in
       let commandArgs :=
         if (0 <? length volumes)%nat
         then commandArgs ++ volumeArgs_loop volumes 0 (replicate (length volumes) "")
         else commandArgs in
       ret (fst pe, commandArgs ++ args)) ;;
  let commandName := fst names in
  let commandArgs := snd names in
  let cmd := exec.Command commandName commandArgs in
  let cmd :=
    {| exec.Path := exec.Path cmd; exec.Args := exec.Args cmd;
       exec.Stdin := Some os.Stdin; exec.Stdout := Some os.Stdout;
       exec.Stderr := Some os.Stderr; exec.SysProcAttr := exec.SysProcAttr cmd |} in
  cmd <-
    (if isChild then
       run_isChild volumes commandName cmd
     else
       (* we want the child process that we're about to fork to be isolated *)
       ret {| exec.Path := exec.Path cmd; exec.Args := exec.Args cmd;
              exec.Stdin := exec.Stdin cmd; exec.Stdout := exec.Stdout cmd;
              exec.Stderr := exec.Stderr cmd;
              exec.SysProcAttr :=
                Some {| syscall.Cloneflags :=
                          Z.lor (Z.lor syscall.CLONE_NEWUTS syscall.CLONE_NEWPID)
                            syscall.CLONE_NEWNS;
                        syscall.Unshareflags := syscall.CLONE_NEWNS |} |}) ;;
  a <- cmd_Run cmd ;;
  match fst a with
  | Some e => to_stderr e
  | None => ret tt
  end ;;
  os_Exit (os.ExitCode (snd a)).

Definition run (args volumes : list string) (isChild : bool) : M unit :=
  with_defers (run_body args volumes isChild).

Fixpoint ps_loop (files : list os.DirEntry) : M unit :=
  match files with
  | [] => ret tt
  | file :: rest =>
      exitIfError (snd (os.Info file)) "ps(): file.Info()" ;;
      fmt_Println [VString (os.Name file); VString (fst (os.Info file))] ;;
      ps_loop rest
  end.

Definition ps : M unit :=
  fe <- os_ReadDir containersDir ;;
  exitIfError (snd fe) "ps(): os.ReadDir()" ;;
  ps_loop (fst fe).

(** The loop of [main] over [os.Args[2:]]. *)
Fixpoint main_loop (rest volumes args : list string) : list string * list string :=
  match rest with
  | [] => (volumes, args)
  | arg :: rest' =>
      if strings.HasPrefix arg "-v="
      then main_loop rest' (volumes ++ [strings.TrimPrefix arg "-v="]) args
      else main_loop rest' volumes (args ++ [arg])
  end.

Definition main (os_Args : list string) : M unit :=
  if (length os_Args <? 2)%nat then log_Fatal "a command is required"
  else
    command <- index os_Args 1 ;;
    if String.eqb command "run" || String.eqb command "_child" then
      let va :=
        if (2 <? length os_Args)%nat then main_loop (drop 2 os_Args) [] [] else ([], []) in
      run (snd va) (fst va) (String.eqb command "_child")
    else if String.eqb command "ps" then ps
    else log_Fatal "bad command".

(** The whole process: the package's [init], then [main]. *)
Definition program (os_Args : list string) : M unit :=
  init ;; main os_Args.

End Program.

(** The exit status of the process started with [os_Args] in world [w], and
    its final state. *)
Definition process (w : World) (os_Args : list string) : Result unit * State :=
  program w os_Args init_state.

(** ** Strict sequences of operations *)

(** What the design asks of a sequence of steps: they are performed in the
    given order, each one only after the earlier ones succeeded, and the
    first failure ends the sequence. *)
Fixpoint exec_ops (w : World) (tr : list Event) (ops : list Op) : list Event * bool :=
  match ops with
  | [] => (tr, true)
  | op :: rest =>
      let a := answer w tr op in
      let tr' := tr ++ [mkEvent op (fst a) (snd a)] in
      match fst a with
      | None => exec_ops w tr' rest
      | Some _ => (tr', false)
      end
  end.

Definition succeeded (e : Event) : Prop := ev_err e = None.

(** [done] follows [steps]: its operations are the first steps, in order,
    and every event but the last one succeeded. *)
Definition in_strict_order (steps : list Op) (done : list Event) : Prop :=
  map ev_op done `prefix_of` steps /\
  forall (i : nat) (e : Event),
    done !! i = Some e -> (S i < length done)%nat -> succeeded e.

Definition all_succeeded (steps : list Op) (done : list Event) : Prop :=
  map ev_op done = steps /\ Forall succeeded done.

Definition stopped_at_failure (done : list Event) : Prop :=
  exists e : Event, last done = Some e /\ ~ succeeded e.

(** ** A small program logic for the fatal steps of main.go *)

(** [m] performs exactly the strict sequence [ops].  When all of them
    succeed and [a] is [Some v], [m] returns [v] and has written nothing to
    standard error.  Otherwise, when one of them fails, or with [None] for
    [a], the process has written one more line to standard error and exits
    with code 1. *)
Definition fatal_steps {A : Type} (w : World) (m : M A) (ops : list Op) (a : option A) : Prop :=
  forall s : State,
    st_trace (snd (m s)) = fst (exec_ops w (st_trace s) ops) /\
    match (if snd (exec_ops w (st_trace s) ops) then a else None) with
    | Some v => fst (m s) = Ok v /\ st_stderr (snd (m s)) = st_stderr s
    | None =>
        fst (m s) = Exit 1 /\
        exists line : string, st_stderr (snd (m s)) = st_stderr s ++ [line]
    end.

(** ** The steps of the design, and the functions that perform them *)

(** Root Switch: bind-mount the new root onto itself (recursively), create
    the retirement directory in it, pivot, change to the new root. *)
Definition root_switch_steps (newRoot : string) : list Op :=
  [ Mount newRoot newRoot "" (Z.lor syscall.MS_BIND syscall.MS_REC) "";
    MkdirAll (filepath.Join [newRoot; ".put_old"]) perm_0700;
    PivotRoot newRoot (filepath.Join [newRoot; ".put_old"]);
    Chdir "/" ].

(** Rootfs Provisioner: make the destination, extract the archive into it. *)
Definition provision_steps (dest src : string) : list Op :=
  [ MkdirAll dest perm_0700;
    Run (exec.Command "tar" ["-xzf"; src; "-C"; dest]) ].

(** The check of [run] on a volume string. *)
Definition two_parts (volume : string) : bool :=
  (length (strings.Split volume ":") =? 2)%nat.

Definition volume_source (volume : string) : string :=
  default "" (strings.Split volume ":" !! O).

Definition volume_target (volume : string) : string :=
  default "" (strings.Split volume ":" !! 1%nat).

(** Volume Mounter, one mapping: make the target inside the root, bind-mount
    the source onto it (recursively). *)
Definition volume_steps (rootfsDir volume : string) : list Op :=
  [ MkdirAll (filepath.Join [rootfsDir; volume_target volume]) perm_0700;
    Mount (volume_source volume) (filepath.Join [rootfsDir; volume_target volume]) ""
      (Z.lor syscall.MS_BIND syscall.MS_REC) "" ].

(** Volume Mounter, the list: the mappings in order, up to the first string
    that fails the check. *)
Fixpoint volumes_steps (rootfsDir : string) (volumes : list string) : list Op :=
  match volumes with
  | [] => []
  | volume :: rest =>
      if two_parts volume
      then volume_steps rootfsDir volume ++ volumes_steps rootfsDir rest
      else []
  end.

(** [mountedVolumes] after the loop went through [volumes] from index [i]. *)
Fixpoint mounted_after (volumes : list string) (i : nat) (mountedVolumes : list string)
  : list string :=
  match volumes with
  | [] => mountedVolumes
  | volume :: rest =>
      mounted_after rest (S i) (<[i := volume_target volume]> mountedVolumes)
  end.

(** ** The container identity *)

(** [a-zA-Z0-9]. *)
Definition alnum (c : ascii) : bool :=
  let n := nat_of_ascii c in
  ((48 <=? n) && (n <=? 57) || (65 <=? n) && (n <=? 90) || (97 <=? n) && (n <=? 122))%nat.

Definition availableRunes : list ascii := String.list_ascii_of_string randomStringChars.

(** The characters that [n] draws starting with the [k]-th one select. *)
Definition drawn (w : World) (k n : nat) : list ascii :=
  map (fun j => default Ascii.zero (availableRunes !! Z.to_nat (Intn w j 62))) (seq k n).

(** The identity that [run] generates when [k] numbers were drawn before. *)
Definition container_id (w : World) (k : nat) : string :=
  "b-" +:+ String.string_of_list_ascii (drawn w k 16).

(** [b-] followed by exactly 16 characters of [a-zA-Z0-9]. *)
Definition is_identity (id : string) : Prop :=
  exists rs : string,
    id = "b-" +:+ rs /\
    String.length rs = 16%nat /\
    Forall (fun c => alnum c = true) (String.list_ascii_of_string rs).

Definition add_rand (n : nat) (s : State) : State :=
  {| st_trace := st_trace s; st_stdout := st_stdout s; st_stderr := st_stderr s;
     st_rand := (n + st_rand s)%nat; st_defers := st_defers s |}.

(** ** The directory of a container *)

Definition no_slash (s : string) : Prop :=
  Forall (fun c => c <> "/"%char) (String.list_ascii_of_string s).

(** ** The child bootstrap *)

Definition procfs_mount : Op := Mount "proc" "/proc" "proc" 0 "".

(** Steps 1 to 5 of the child bootstrap for the identity [id]: hostname,
    root filesystem in [containers/<id>], volumes, root switch, procfs.  A
    volume string that fails the check ends the list. *)
Definition setup_steps (id : string) (volumes : list string) : list Op :=
  Sethostname id ::
  provision_steps ("containers/" +:+ id) rootFsTarball ++
  volumes_steps ("containers/" +:+ id) volumes ++
  (if forallb two_parts volumes
   then root_switch_steps ("containers/" +:+ id) ++ [procfs_mount]
   else []).

(** The command of the user as the child runs it. *)
Definition user_cmd (args : list string) : exec.Cmd :=
  {| exec.Path := hd "" args; exec.Args := args;
     exec.Stdin := Some os.Stdin; exec.Stdout := Some os.Stdout;
     exec.Stderr := Some os.Stderr; exec.SysProcAttr := None |}.

(** The block under [if isChild] once the identity is [id] and the root
    filesystem is [containers/<id>]. *)
Definition run_isChild_with (w : World) (id : string) (volumes : list string)
  (commandName : string) (cmd : exec.Cmd) : M exec.Cmd :=
  err <- syscall_Sethostname w id ;;
  exitIfError err "set hostname" ;;
  unzipRootFsTarball w ("containers/" +:+ id) rootFsTarball ;;
  mountedVolumes <-
    mount_loop w ("containers/" +:+ id) volumes 0 (replicate (length volumes) "") ;;
  defer (DeferUnmountVolumes mountedVolumes) ;;
  pivotRoot w ("containers/" +:+ id) ;;
  err <- syscall_Mount w "proc" "/proc" "proc" 0 "" ;;
  exitIfError err "mount procfs" ;;
  defer DeferUnmountProc ;;
  pid <- os_Getpid w ;;
  fmt_Println [VString "pid"; VInt pid; VString "running"; VString commandName] ;;
  ret cmd.

(** ** The launcher *)

(** The isolation that [run] asks for: new UTS, PID and mount namespaces,
    and the mount namespace unshared. *)
Definition isolation : syscall.SysProcAttr :=
  {| syscall.Cloneflags :=
       Z.lor (Z.lor syscall.CLONE_NEWUTS syscall.CLONE_NEWPID) syscall.CLONE_NEWNS;
     syscall.Unshareflags := syscall.CLONE_NEWNS |}.

(** The re-execution of the program at [path] with the internal [_child]
    command, the volumes again as [-v=] arguments, then the command. *)
Definition reexec_cmd (path : string) (volumes args : list string) : exec.Cmd :=
  {| exec.Path := path;
     exec.Args := path :: "_child" :: map (fun vol => "-v=" +:+ vol) volumes ++ args;
     exec.Stdin := Some os.Stdin; exec.Stdout := Some os.Stdout;
     exec.Stderr := Some os.Stderr; exec.SysProcAttr := Some isolation |}.

(** ** The arguments of [main] *)

Definition is_volume_arg (arg : string) : bool := strings.HasPrefix arg "-v=".

(** The command and the volume requests that [main] hands to [run]. *)
Definition command_args (rest : list string) : list string :=
  List.filter (fun arg => negb (is_volume_arg arg)) rest.

Definition volume_requests (rest : list string) : list string :=
  map (fun arg => strings.TrimPrefix arg "-v=") (List.filter is_volume_arg rest).

(** The name of the command of [main] for each of the two roles. *)
Definition role (isChild : bool) : string := if isChild then "_child" else "run".

(** The event of the package's [init], and the state [main] starts in when
    it succeeded. *)
Definition init_event (w : World) : Event :=
  mkEvent (MkdirAll containersDir perm_0700)
    (fst (answer w [] (MkdirAll containersDir perm_0700)))
    (snd (answer w [] (MkdirAll containersDir perm_0700))).

Definition after_init (w : World) : State :=
  {| st_trace := [init_event w]; st_stdout := []; st_stderr := [];
     st_rand := O; st_defers := [] |}.

(** ** Sample worlds *)

(** A world in which every operation succeeds and every command exits
    with code 0. *)
Definition calm : World :=
  {| answer := fun _ op =>
       match op with
       | Run _ => (None, Some (os.Exited 0))
       | _ => (None, None)
       end;
     Intn := fun k n => (Z.of_nat k * 7 + 3) mod n;
     Executable := ("/usr/local/bin/focker", None);
     Getpid := 1;
     ReadDir := fun _ => ([], None) |}.

(** The two ways a child with a command ends.  Either steps 1 to 5 all
    succeeded and the last event is the run of the command of the user,
    whose exit code becomes the exit code of the child; or the steps stopped
    at a failure or at a volume string that fails the check, and the child
    exits with code 1 without running the command. *)
Definition child_ran (w : World) (id : string) (args volumes : list string)
  (s : State) (out : Result unit * State) (done : list Event) : Prop :=
  exists (pre : list Event) (e : Event),
    done = pre ++ [e] /\
    all_succeeded (setup_steps id volumes) pre /\
    forallb two_parts volumes = true /\
    ev_op e = Run (user_cmd args) /\
    (ev_err e, ev_state e) = answer w (st_trace s ++ pre) (Run (user_cmd args)) /\
    fst out = Exit (os.ExitCode (ev_state e)) /\
    st_stderr (snd out) =
      st_stderr s ++ match ev_err e with Some msg => [msg] | None => [] end.

Definition child_aborted (id : string) (volumes : list string)
  (s : State) (out : Result unit * State) (done : list Event) : Prop :=
  in_strict_order (setup_steps id volumes) done /\
  (stopped_at_failure done \/
   (forallb two_parts volumes = false /\ all_succeeded (setup_steps id volumes) done)) /\
  fst out = Exit 1 /\
  exists line : string, st_stderr (snd out) = st_stderr s ++ [line].

(** ** What the setup steps are made of *)

Definition is_mount (op : Op) : bool :=
  match op with Mount _ _ _ _ _ => true | _ => false end.

Definition is_unmount (op : Op) : bool :=
  match op with Unmount _ _ => true | _ => false end.

Definition is_exec (op : Op) : bool :=
  match op with Exec _ _ _ => true | _ => false end.

(** The number of mount calls in a trace. *)
Definition mount_calls (tr : list Event) : nat :=
  length (List.filter is_mount (map ev_op tr)).

(** A volume mapping as the design describes it: exactly two non-empty
    components around one colon. *)
Definition well_formed_mapping (volume : string) : bool :=
  match strings.Split volume ":" with
  | [source; target] => negb (String.eqb source "") && negb (String.eqb target "")
  | _ => false
  end.

(** The setup steps never unmount and never replace the process image, and
    the one command they run is [tar]. *)
Definition setup_op (id : string) (op : Op) : Prop :=
  match op with
  | Exec _ _ _ => False
  | Unmount _ _ => False
  | Run c => c = exec.Command "tar" ["-xzf"; rootFsTarball; "-C"; "containers/" +:+ id]
  | _ => True
  end.

Definition no_volume_flag (argv : list string) : Prop :=
  Forall (fun arg => is_volume_arg arg = false) argv.

(** ** The exit code *)

(** The launcher [wh] starts its child in the world [wc]: the process that
    [Run] creates is this program, run with the arguments of the command in
    [wc], and [Run] waits for it. *)
Definition started_by (wh wc : World) : Prop :=
  forall (tr : list Event) (cmd : exec.Cmd),
    snd (answer wh tr (Run cmd)) =
      Some (os.Exited (exit_status (fst (process wc (exec.Args cmd))))).

(** The arguments of the child that the launcher starts for [rest]. *)
Definition child_argv (wh : World) (rest : list string) : list string :=
  exec.Args (reexec_cmd (fst (Executable wh)) (volume_requests rest) (command_args rest)).

(** The process got as far as the command of the user, and [Run] on it
    answered [err] and [st]. *)
Definition last_run (w : World) (argv : list string) (err : option error)
  (st : option os.ProcessState) : Prop :=
  exists (e : Event) (args : list string),
    last (st_trace (snd (process w argv))) = Some e /\
    ev_op e = Run (user_cmd args) /\
    ev_err e = err /\
    ev_state e = st.

(** A child world in which everything succeeds and [Run] on the command of
    the user (the one command with standard streams) answers [r]. *)
Definition world_with (r : option error * option os.ProcessState) : World :=
  {| answer := fun _ op =>
       match op with
       | Run c => match exec.Stdin c with
                  | Some _ => r
                  | None => (None, Some (os.Exited 0))
                  end
       | _ => (None, None)
       end;
     Intn := Intn calm;
     Executable := Executable calm;
     Getpid := 1;
     ReadDir := ReadDir calm |}.

(** The launcher world around the child world [wc]. *)
Definition hosting (wc : World) : World :=
  {| answer := fun _ op =>
       match op with
       | Run c =>
           let status := exit_status (fst (process wc (exec.Args c))) in
           (if (status =? 0)%Z then None else Some "exit status (non-zero)",
            Some (os.Exited status))
       | _ => (None, None)
       end;
     Intn := Intn calm;
     Executable := Executable calm;
     Getpid := 1000;
     ReadDir := ReadDir calm |}.

(** What [run] does with the command once it is prepared. *)
Definition run_tail (w : World) (cmd : exec.Cmd) : M unit :=
  a <- cmd_Run w cmd ;;
  match fst a with
  | Some e => to_stderr e
  | None => ret tt
  end ;;
  os_Exit (os.ExitCode (snd a)).

(** ** Notions for the rest of main.go *)

(** The lines that [ps] prints for a list of directory entries. *)
Definition ps_lines (files : list os.DirEntry) : list (list Value) :=
  map (fun file => [VString (os.Name file); VString (fst (os.Info file))]) files.

(** The number of colons in a string. *)
Fixpoint colons (s : string) : nat :=
  match s with
  | EmptyString => O
  | String c r => ((if Ascii.eqb c ":" then 1 else 0) + colons r)%nat
  end.

(** A single path element that names something: not empty, without a
    slash, and neither [.] nor [..]. *)
Definition plain_name (name : string) : Prop :=
  name <> "" /\ no_slash name /\ name <> "." /\ name <> "..".

Definition failed (e : Event) : bool :=
  match ev_err e with
  | Some _ => true
  | None => false
  end.

(** A world like [calm] with three containers in the containers directory,
    the second of which cannot be inspected. *)
Definition listing : World :=
  {| answer := answer calm;
     Intn := Intn calm;
     Executable := ("/usr/local/bin/focker", Some "readlink /proc/self/exe: permission denied");
     Getpid := 1;
     ReadDir := fun _ =>
       ([ os.mkDirEntry "b-aaaaaaaaaaaaaaaa" ("Fri Oct 30 10:00:00 UTC 2026", None);
          os.mkDirEntry "b-bbbbbbbbbbbbbbbb" ("", Some "lstat: no such file or directory");
          os.mkDirEntry "b-cccccccccccccccc" ("Fri Oct 30 12:00:00 UTC 2026", None) ],
        None) |}.

(** A world like [calm] with two containers in the containers directory,
    in which an unmount fails when the trace so far has odd length. *)
Definition sticky : World :=
  {| answer := fun tr op =>
       match op with
       | Unmount _ _ => if Nat.odd (length tr) then (Some "device or resource busy", None)
                        else (None, None)
       | _ => answer calm tr op
       end;
     Intn := Intn calm;
     Executable := Executable calm;
     Getpid := 1;
     ReadDir := fun _ =>
       ([ os.mkDirEntry "b-aaaaaaaaaaaaaaaa" ("Fri Oct 30 10:00:00 UTC 2026", None);
          os.mkDirEntry "b-cccccccccccccccc" ("Fri Oct 30 12:00:00 UTC 2026", None) ],
        None) |}.

(** A world in which the containers directory cannot be created. *)
Definition read_only : World :=
  {| answer := fun tr op =>
       match op with
       | MkdirAll _ _ => (Some "mkdir ./containers: read-only file system", None)
       | _ => answer calm tr op
       end;
     Intn := Intn calm;
     Executable := Executable calm;
     Getpid := 1;
     ReadDir := ReadDir calm |}.

(** [m] leaves the standard output as it is. *)
Definition quiet {A : Type} (m : M A) : Prop :=
  forall s : State, st_stdout (snd (m s)) = st_stdout s.

(** [m] prints [line], and nothing else, when it returns, and prints
    nothing when it does not. *)
Definition prints_on_return {A : Type} (line : list Value) (m : M A) : Prop :=
  forall s : State,
    st_stdout (snd (m s)) =
      match fst (m s) with
      | Ok _ => st_stdout s ++ [line]
      | _ => st_stdout s
      end.

(** * Theorems *)

Example Split_volume : strings.Split "/host/data:/data" ":" = ["/host/data"; "/data"].
Proof. reflexivity. Qed.

Example Split_no_colon : strings.Split "nocolon" ":" = ["nocolon"].
Proof. reflexivity. Qed.

Example Split_three : strings.Split "a:b:c" ":" = ["a"; "b"; "c"].
Proof. reflexivity. Qed.

Example Split_long_sep : strings.Split "a, b, c,d" ", " = ["a"; "b"; "c,d"].
Proof. reflexivity. Qed.

Example Split_empty_parts : strings.Split ":" ":" = [""; ""].
Proof. reflexivity. Qed.

Example TrimPrefix_volume : strings.TrimPrefix "-v=/a:/b" "-v=" = "/a:/b".
Proof. reflexivity. Qed.

Example Join_containers : filepath.Join ["./containers"; "b-abc"] = "containers/b-abc".
Proof. reflexivity. Qed.

Example Join_put_old : filepath.Join ["containers/b-abc"; ".put_old"] = "containers/b-abc/.put_old".
Proof. reflexivity. Qed.

Example Join_target : filepath.Join ["containers/b-abc"; "/data"] = "containers/b-abc/data".
Proof. reflexivity. Qed.

Example Clean_dotdot : filepath.Clean "/a/./b//../../../c/" = "/c".
Proof. reflexivity. Qed.

Example Clean_relative_dotdot : filepath.Clean "a/../../b" = "../b".
Proof. reflexivity. Qed.

Lemma exec_ops_app (w : World) (ops1 ops2 : list Op) (tr : list Event) :
  exec_ops w tr (ops1 ++ ops2) =
    if snd (exec_ops w tr ops1)
    then exec_ops w (fst (exec_ops w tr ops1)) ops2
    else exec_ops w tr ops1.
Proof.
  revert tr. induction ops1 as [|op ops1 IH]; intros tr; simpl.
  - reflexivity.
  - destruct (fst (answer w tr op)).
    + reflexivity.
    + apply IH.
Qed.

Lemma exec_ops_spec (w : World) (steps : list Op) (tr : list Event) :
  exists done : list Event,
    fst (exec_ops w tr steps) = tr ++ done /\
    in_strict_order steps done /\
    if snd (exec_ops w tr steps)
    then all_succeeded steps done
    else stopped_at_failure done.
Proof.
  revert tr. induction steps as [|op steps IH]; intros tr; simpl.
  - exists []. rewrite app_nil_r. repeat split.
    + apply prefix_nil.
    + intros i e H. rewrite lookup_nil in H. discriminate.
    + constructor.
  - destruct (answer w tr op) as [err st] eqn:Ha; simpl.
    destruct err as [e|].
    + exists [mkEvent op (Some e) st]. repeat split.
      * simpl. apply prefix_cons, prefix_nil.
      * intros i ev _ Hlt. simpl in Hlt. lia.
      * exists (mkEvent op (Some e) st). split; [reflexivity|].
        unfold succeeded. simpl. discriminate.
    + destruct (IH (tr ++ [mkEvent op None st])) as (done & Htr & [Hpre Hok] & Hend).
      exists (mkEvent op None st :: done). split; [|split; [split|]].
      * rewrite Htr, <- app_assoc. reflexivity.
      * simpl. apply prefix_cons, Hpre.
      * intros [|i] ev Hev Hlt; simpl in Hev, Hlt.
        -- injection Hev as <-. reflexivity.
        -- apply (Hok i ev Hev). lia.
      * destruct (snd (exec_ops w (tr ++ [mkEvent op None st]) steps)).
        -- destruct Hend as [Hops Hall]. split.
           ++ simpl. rewrite Hops. reflexivity.
           ++ constructor; [reflexivity | exact Hall].
        -- destruct Hend as (ev & Hlast & Hbad).
           exists ev. split; [|exact Hbad].
           destruct done as [|d done']; [discriminate Hlast|].
           exact Hlast.
Qed.

Section Logic.

Variable w : World.

Lemma fatal_steps_ret {A : Type} (v : A) : fatal_steps w (ret v) [] (Some v).
Proof. intros s. repeat split. Qed.

Lemma fatal_steps_log_Fatal {A : Type} (line : string) :
  fatal_steps w (log_Fatal (A := A) line) [] None.
Proof. intros s. repeat split. exists line. reflexivity. Qed.

Lemma fatal_steps_bind {A B : Type} (m : M A) (k : A -> M B)
  (ops1 ops2 : list Op) (v : A) (b : option B) :
  fatal_steps w m ops1 (Some v) ->
  fatal_steps w (k v) ops2 b ->
  fatal_steps w (bind m k) (ops1 ++ ops2) b.
Proof.
  intros Hm Hk s. specialize (Hm s). destruct Hm as [Htr Hres].
  unfold bind. rewrite exec_ops_app.
  destruct (m s) as [r s1]; simpl in Htr, Hres.
  destruct (snd (exec_ops w (st_trace s) ops1)) eqn:Hok.
  - destruct Hres as [-> Herr]. rewrite <- Htr, <- Herr. apply Hk.
  - destruct Hres as [-> Herr]. simpl. rewrite Hok. split; [exact Htr|].
    split; [reflexivity | exact Herr].
Qed.

Lemma fatal_steps_bind_exit {A B : Type} (m : M A) (k : A -> M B) (ops : list Op) :
  fatal_steps w m ops None ->
  fatal_steps w (bind m k) ops None.
Proof.
  intros Hm s. specialize (Hm s). destruct Hm as [Htr Hres].
  unfold bind. destruct (m s) as [r s1]; simpl in Htr, Hres.
  assert (r = Exit 1 /\ exists line, st_stderr s1 = st_stderr s ++ [line]) as [-> Herr].
  { destruct (snd (exec_ops w (st_trace s) ops)); exact Hres. }
  split; [exact Htr|].
  destruct (snd (exec_ops w (st_trace s) ops)); (split; [reflexivity | exact Herr]).
Qed.

(** An operation whose error goes to [exitIfError], and what comes next. *)
Lemma fatal_steps_call_then {B : Type} (op : Op) (label : string) (K : M B)
  (ops : list Op) (b : option B) :
  fatal_steps w K ops b ->
  fatal_steps w (err <- call w op ;; exitIfError err label ;; K) (op :: ops) b.
Proof.
  intros HK s.
  unfold call, bind, perform, exitIfError, log_Fatal, bind, to_stderr, os_Exit, ret.
  simpl. destruct (fst (answer w (st_trace s) op)) as [e|]; simpl.
  - destruct (0 <? String.length label)%nat; simpl;
      (split; [reflexivity | split; [reflexivity | eexists; reflexivity]]).
  - apply (HK (mkState _ _ _ _ _)).
Qed.

Lemma fatal_steps_perform (op : Op) (label : string) :
  fatal_steps w (a <- perform w op ;; exitIfError (fst a) label) [op] (Some tt).
Proof.
  intros s.
  unfold bind, perform, exitIfError, log_Fatal, bind, to_stderr, os_Exit, ret.
  simpl. destruct (fst (answer w (st_trace s) op)) as [e|]; simpl.
  - destruct (0 <? String.length label)%nat; simpl;
      (split; [reflexivity | split; [reflexivity | eexists; reflexivity]]).
  - repeat split.
Qed.

Lemma fatal_steps_call (op : Op) (label : string) :
  fatal_steps w (err <- call w op ;; exitIfError err label) [op] (Some tt).
Proof.
  intros s.
  unfold call, bind, perform, exitIfError, log_Fatal, bind, to_stderr, os_Exit, ret.
  simpl. destruct (fst (answer w (st_trace s) op)) as [e|]; simpl.
  - destruct (0 <? String.length label)%nat; simpl;
      (split; [reflexivity | split; [reflexivity | eexists; reflexivity]]).
  - repeat split.
Qed.

(** Steps that touch neither the trace nor the control flow. *)
Lemma fatal_steps_defer (d : Deferred) : fatal_steps w (defer d) [] (Some tt).
Proof. intros s. repeat split. Qed.

Lemma fatal_steps_Println (a : list Value) : fatal_steps w (fmt_Println a) [] (Some tt).
Proof. intros s. repeat split. Qed.

Lemma fatal_steps_Getpid : fatal_steps w (os_Getpid w) [] (Some (Getpid w)).
Proof. intros s. repeat split. Qed.

End Logic.

Section Steps.

Variable w : World.

Lemma pivotRoot_steps (newRoot : string) :
  fatal_steps w (pivotRoot w newRoot) (root_switch_steps newRoot) (Some tt).
Proof.
  unfold pivotRoot, root_switch_steps, syscall_Mount, os_MkdirAll,
    syscall_PivotRoot, syscall_Chdir.
  do 3 apply fatal_steps_call_then.
  apply fatal_steps_call.
Qed.

Lemma unzipRootFsTarball_steps (dest src : string) :
  fatal_steps w (unzipRootFsTarball w dest src) (provision_steps dest src) (Some tt).
Proof.
  unfold unzipRootFsTarball, provision_steps, os_MkdirAll, cmd_Run.
  apply fatal_steps_call_then.
  apply fatal_steps_perform.
Qed.

Lemma mount_loop_steps (rootfsDir : string) (volumes : list string) :
  forall (i : nat) (mountedVolumes : list string),
    fatal_steps w (mount_loop w rootfsDir volumes i mountedVolumes)
      (volumes_steps rootfsDir volumes)
      (if forallb two_parts volumes
       then Some (mounted_after volumes i mountedVolumes)
       else None).
Proof.
  induction volumes as [|volume rest IH]; intros i mountedVolumes; simpl.
  - apply fatal_steps_ret.
  - unfold volume_target, volume_source, volume_steps, two_parts.
    destruct (strings.Split volume ":") as [|p0 [|p1 [|p2 parts]]] eqn:Hparts; simpl;
      try (apply fatal_steps_bind_exit, fatal_steps_log_Fatal).
    apply (fatal_steps_bind w _ _ [] _ tt); [apply fatal_steps_ret|].
    apply (fatal_steps_bind w _ _ [] _ p0); [apply fatal_steps_ret|].
    apply (fatal_steps_bind w _ _ [] _ p1); [apply fatal_steps_ret|].
    unfold os_MkdirAll, syscall_Mount.
    do 2 apply fatal_steps_call_then.
    apply IH.
Qed.

End Steps.

Lemma mounted_after_app (volumes : list string) :
  forall (filled : list string) (todo : list string),
    length todo = length volumes ->
    mounted_after volumes (length filled) (filled ++ todo) =
      filled ++ map volume_target volumes.
Proof.
  induction volumes as [|volume rest IH]; intros filled todo Hlen; simpl.
  - destruct todo; [reflexivity | discriminate].
  - destruct todo as [|t todo]; [discriminate|].
    rewrite (insert_app_r_alt filled (t :: todo)) by lia.
    replace (length filled - length filled)%nat with O by lia. simpl.
    specialize (IH (filled ++ [volume_target volume]) todo).
    rewrite length_app in IH. simpl in IH.
    replace (length filled + 1)%nat with (S (length filled)) in IH by lia.
    rewrite <- !app_assoc in IH. simpl in IH. apply IH.
    simpl in Hlen. lia.
Qed.

(** On the way out of the loop [mountedVolumes] holds the target of every
    volume, in the order of the volumes. *)
Lemma mounted_after_all (volumes : list string) :
  mounted_after volumes 0 (replicate (length volumes) "") = map volume_target volumes.
Proof.
  apply (mounted_after_app volumes [] (replicate (length volumes) "")).
  apply length_replicate.
Qed.

Lemma availableRunes_alnum : Forall (fun c => alnum c = true) availableRunes.
Proof. repeat constructor. Qed.

Lemma availableRunes_length : length availableRunes = 62%nat.
Proof. reflexivity. Qed.

Lemma randomString_loop_spec (w : World) (Hw : rand_ok w) (todo : nat) :
  forall (filled rest : list ascii) (s : State),
    length rest = todo ->
    randomString_loop w availableRunes todo (length filled) (filled ++ rest) s =
      (Ok (filled ++ drawn w (st_rand s) todo), add_rand todo s).
Proof.
  induction todo as [|todo IH]; intros filled rest s Hlen.
  - destruct rest; [|discriminate]. simpl. unfold ret, drawn, add_rand. simpl.
    destruct s; reflexivity.
  - destruct rest as [|r0 rest]; [discriminate|].
    cbn [randomString_loop]. unfold bind at 1.
    change (Z.of_nat (String.length randomStringChars)) with 62.
    change (rand_Intn w 62 s) with
      (Ok (Intn w (st_rand s) 62),
       {| st_trace := st_trace s; st_stdout := st_stdout s; st_stderr := st_stderr s;
          st_rand := S (st_rand s); st_defers := st_defers s |}).
    pose proof (Hw (st_rand s) 62 ltac:(lia)) as Hrange.
    destruct (lookup_lt_is_Some_2 availableRunes (Z.to_nat (Intn w (st_rand s) 62)))
      as [c Hc].
    { rewrite availableRunes_length. lia. }
    unfold bind at 1, index. rewrite Hc. unfold ret at 1.
    rewrite (insert_app_r_alt filled (r0 :: rest)) by lia.
    replace (length filled - length filled)%nat with O by lia. simpl.
    specialize (IH (filled ++ [c]) rest
      {| st_trace := st_trace s; st_stdout := st_stdout s; st_stderr := st_stderr s;
         st_rand := S (st_rand s); st_defers := st_defers s |}).
    rewrite length_app in IH. simpl in IH.
    replace (length filled + 1)%nat with (S (length filled)) in IH by lia.
    rewrite <- !app_assoc in IH. simpl in IH.
    rewrite IH by (simpl in Hlen; lia).
    unfold drawn, add_rand. simpl. rewrite Hc. simpl.
    do 2 f_equal. f_equal. lia.
Qed.

Lemma randomString_16 (w : World) (Hw : rand_ok w) (s : State) :
  randomString w 16 s =
    (Ok (String.string_of_list_ascii (drawn w (st_rand s) 16)), add_rand 16 s).
Proof.
  unfold randomString. change (16 <? 1)%Z with false. cbv iota.
  unfold bind.
  change (randomString_loop w (String.list_ascii_of_string randomStringChars)
            (Z.to_nat 16) 0 (replicate (Z.to_nat 16) Ascii.zero) s)
    with (randomString_loop w availableRunes (Z.to_nat 16) (length (@nil ascii))
            ([] ++ replicate (Z.to_nat 16) Ascii.zero) s).
  rewrite (randomString_loop_spec w Hw (Z.to_nat 16) []
             (replicate (Z.to_nat 16) Ascii.zero) s (length_replicate _ _)).
  reflexivity.
Qed.

Lemma drawn_length (w : World) (k n : nat) : length (drawn w k n) = n.
Proof. unfold drawn. rewrite length_map. apply length_seq. Qed.

Lemma drawn_alnum (w : World) (Hw : rand_ok w) (k n : nat) :
  Forall (fun c => alnum c = true) (drawn w k n).
Proof.
  unfold drawn. apply Forall_forall. intros c Hc.
  apply list_elem_of_fmap in Hc. destruct Hc as (j & -> & _).
  pose proof (Hw j 62 ltac:(lia)) as Hrange.
  destruct (lookup_lt_is_Some_2 availableRunes (Z.to_nat (Intn w j 62))) as [c Hc].
  { rewrite availableRunes_length. lia. }
  rewrite Hc. simpl.
  pose proof availableRunes_alnum as Hall.
  rewrite Forall_forall in Hall. apply Hall.
  eapply list_elem_of_lookup_2, Hc.
Qed.

Lemma length_string_of_list_ascii (l : list ascii) :
  String.length (String.string_of_list_ascii l) = length l.
Proof. induction l as [|c l IH]; simpl; [reflexivity | now rewrite IH]. Qed.

Lemma container_id_is_identity (w : World) (Hw : rand_ok w) (k : nat) :
  is_identity (container_id w k).
Proof.
  exists (String.string_of_list_ascii (drawn w k 16)). split; [reflexivity|].
  rewrite String.list_ascii_of_string_of_list_ascii. split.
  - rewrite length_string_of_list_ascii. apply drawn_length.
  - apply drawn_alnum, Hw.
Qed.

Lemma prefix_slash (c : ascii) (r : string) :
  c <> "/"%char -> String.prefix "/" (String c r) = false.
Proof.
  intros Hc. cbn [String.prefix].
  destruct (ascii_dec "/" c) as [E|_]; [|reflexivity].
  symmetry in E. contradiction.
Qed.

Lemma genSplit_no_slash (s : string) :
  no_slash s -> strings.genSplit "/" 0 s = [s].
Proof.
  unfold no_slash. induction s as [|c r IH]; intros H.
  - reflexivity.
  - cbn [String.list_ascii_of_string] in H. inversion H as [|? ? Hc Hr]; subst.
    cbn [strings.genSplit]. rewrite (prefix_slash c r Hc), (IH Hr). reflexivity.
Qed.

Lemma alnum_no_slash (rs : string) :
  Forall (fun c => alnum c = true) (String.list_ascii_of_string rs) -> no_slash rs.
Proof.
  unfold no_slash. intros H. eapply Forall_impl; [exact H|].
  intros c Hc ->. discriminate Hc.
Qed.

(** The root filesystem of a container is [containers/<identity>]. *)
Lemma rootfsDir_of_identity (id : string) :
  is_identity id ->
  filepath.Join [containersDir; id] = "containers/" +:+ id.
Proof.
  intros (rs & -> & _ & Hrs). apply alnum_no_slash, genSplit_no_slash in Hrs.
  unfold filepath.Join, containersDir, filepath.Clean, strings.Split. simpl.
  change ("" +:+ rs) with rs. rewrite Hrs. reflexivity.
Qed.

Section Child.

Variable w : World.
Hypothesis Hw : rand_ok w.

Lemma run_isChild_with_steps (volumes : list string) (commandName : string)
  (cmd : exec.Cmd) (id : string) :
  fatal_steps w (run_isChild_with w id volumes commandName cmd)
    (setup_steps id volumes)
    (if forallb two_parts volumes then Some cmd else None).
Proof.
  unfold run_isChild_with, setup_steps, syscall_Sethostname.
  apply fatal_steps_call_then.
  apply (fatal_steps_bind w _ _ _ _ tt); [apply unzipRootFsTarball_steps|].
  pose proof (mount_loop_steps w ("containers/" +:+ id) volumes 0
                (replicate (length volumes) "")) as Hloop.
  destruct (forallb two_parts volumes).
  - eapply fatal_steps_bind; [exact Hloop|].
    apply (fatal_steps_bind w _ _ []
             (root_switch_steps ("containers/" +:+ id) ++ [procfs_mount]) tt);
      [apply fatal_steps_defer|].
    apply (fatal_steps_bind w _ _ (root_switch_steps ("containers/" +:+ id))
             [procfs_mount] tt); [apply pivotRoot_steps|].
    unfold syscall_Mount, procfs_mount.
    apply fatal_steps_call_then.
    apply (fatal_steps_bind w _ _ [] [] tt); [apply fatal_steps_defer|].
    apply (fatal_steps_bind w _ _ [] [] (Getpid w)); [apply fatal_steps_Getpid|].
    apply (fatal_steps_bind w _ _ [] [] tt); [apply fatal_steps_Println|].
    apply fatal_steps_ret.
  - rewrite app_nil_r. apply fatal_steps_bind_exit, Hloop.
Qed.

Lemma run_isChild_eq (volumes : list string) (commandName : string)
  (cmd : exec.Cmd) (s : State) :
  run_isChild w volumes commandName cmd s =
    run_isChild_with w (container_id w (st_rand s)) volumes commandName cmd
      (add_rand 16 s).
Proof.
  unfold run_isChild. unfold bind at 1. rewrite (randomString_16 w Hw).
  fold (container_id w (st_rand s)).
  rewrite (rootfsDir_of_identity _ (container_id_is_identity w Hw (st_rand s))).
  reflexivity.
Qed.

(** The block under [if isChild] performs the strict sequence
    [setup_steps] for the identity it generates. *)
Lemma run_isChild_steps (volumes : list string) (commandName : string)
  (cmd : exec.Cmd) (s : State) :
  let ops := setup_steps (container_id w (st_rand s)) volumes in
  let out := run_isChild w volumes commandName cmd s in
  st_trace (snd out) = fst (exec_ops w (st_trace s) ops) /\
  match (if snd (exec_ops w (st_trace s) ops)
         then (if forallb two_parts volumes then Some cmd else None)
         else None) with
  | Some v => fst out = Ok v /\ st_stderr (snd out) = st_stderr s
  | None =>
      fst out = Exit 1 /\
      exists line : string, st_stderr (snd out) = st_stderr s ++ [line]
  end.
Proof.
  intros ops out. subst ops out. rewrite run_isChild_eq.
  exact (run_isChild_with_steps volumes commandName cmd
           (container_id w (st_rand s)) (add_rand 16 s)).
Qed.

Lemma run_body_isChild (commandName : string) (commandArgs volumes : list string)
  (s : State) :
  run_body w (commandName :: commandArgs) volumes true s =
    (cmd <- run_isChild w volumes commandName (user_cmd (commandName :: commandArgs)) ;;
     run_tail w cmd) s.
Proof. destruct commandArgs; reflexivity. Qed.

Lemma run_tail_spec (cmd : exec.Cmd) (s : State) :
  let a := answer w (st_trace s) (Run cmd) in
  fst (run_tail w cmd s) = Exit (os.ExitCode (snd a)) /\
  st_trace (snd (run_tail w cmd s)) = st_trace s ++ [mkEvent (Run cmd) (fst a) (snd a)] /\
  st_stderr (snd (run_tail w cmd s)) =
    st_stderr s ++ match fst a with Some e => [e] | None => [] end.
Proof.
  unfold run_tail, cmd_Run, bind, perform, to_stderr, os_Exit, ret. simpl.
  destruct (fst (answer w (st_trace s) (Run cmd))); simpl.
  - repeat split.
  - rewrite app_nil_r. repeat split.
Qed.

(** Leaving through [os.Exit] skips the deferred calls. *)
Lemma with_defers_Exit {A : Type} (body : M A) (s : State) (code : Z) :
  fst (body (set_defers [] s)) = Exit code ->
  with_defers w body s = (Exit code, snd (body (set_defers [] s))).
Proof.
  intros H. unfold with_defers.
  destruct (body (set_defers [] s)) as [r s']. simpl in H. subst r. reflexivity.
Qed.

(** The child: the strict sequence of steps 1 to 5, then the command of the
    user, then the exit with its code. *)
Lemma run_child (commandName : string) (commandArgs volumes : list string) (s : State) :
  let args := commandName :: commandArgs in
  let setup := exec_ops w (st_trace s) (setup_steps (container_id w (st_rand s)) volumes) in
  let a := answer w (fst setup) (Run (user_cmd args)) in
  let out := run w args volumes true s in
  if snd setup && forallb two_parts volumes
  then
    fst out = Exit (os.ExitCode (snd a)) /\
    st_trace (snd out) = fst setup ++ [mkEvent (Run (user_cmd args)) (fst a) (snd a)] /\
    st_stderr (snd out) = st_stderr s ++ match fst a with Some e => [e] | None => [] end
  else
    fst out = Exit 1 /\
    st_trace (snd out) = fst setup /\
    exists line : string, st_stderr (snd out) = st_stderr s ++ [line].
Proof.
  intros args setup a out.
  pose proof (run_isChild_steps volumes commandName (user_cmd args) (set_defers [] s))
    as Hsetup.
  cbv zeta in Hsetup.
  change (st_rand (set_defers [] s)) with (st_rand s) in Hsetup.
  change (st_trace (set_defers [] s)) with (st_trace s) in Hsetup.
  change (st_stderr (set_defers [] s)) with (st_stderr s) in Hsetup.
  fold setup in Hsetup. destruct Hsetup as [Htr Hres].
  assert (Hbody : run_body w args volumes true (set_defers [] s) =
            (cmd <- run_isChild w volumes commandName (user_cmd args) ;;
             run_tail w cmd) (set_defers [] s))
    by apply run_body_isChild.
  unfold bind in Hbody.
  destruct (run_isChild w volumes commandName (user_cmd args) (set_defers [] s))
    as [r s1] eqn:Hchild.
  simpl in Htr, Hres.
  destruct (snd setup) eqn:Hok; [destruct (forallb two_parts volumes) eqn:Hwf|];
    simpl; destruct Hres as [-> Herr].
  - pose proof (run_tail_spec (user_cmd args) s1) as (Hcode & Htrace & Hstderr).
    cbv zeta in Hcode, Htrace, Hstderr.
    rewrite Htr in Hcode, Htrace, Hstderr. fold a in Hcode, Htrace, Hstderr.
    rewrite Herr in Hstderr.
    subst out. unfold run.
    rewrite (with_defers_Exit _ s (os.ExitCode (snd a))); rewrite Hbody;
      [|exact Hcode].
    simpl. split; [reflexivity|]. split; assumption.
  - subst out. unfold run.
    rewrite (with_defers_Exit _ s 1); rewrite Hbody; [|reflexivity].
    simpl. split; [reflexivity|]. split; assumption.
  - subst out. unfold run.
    rewrite (with_defers_Exit _ s 1); rewrite Hbody; [|reflexivity].
    simpl. split; [reflexivity|]. split; assumption.
Qed.

End Child.

Lemma volumeArgs_loop_app (volumes : list string) :
  forall (filled todo : list string),
    length todo = length volumes ->
    volumeArgs_loop volumes (length filled) (filled ++ todo) =
      filled ++ map (fun vol => "-v=" +:+ vol) volumes.
Proof.
  induction volumes as [|vol rest IH]; intros filled todo Hlen; simpl.
  - destruct todo; [reflexivity | discriminate].
  - destruct todo as [|t todo]; [discriminate|].
    rewrite (insert_app_r_alt filled (t :: todo)) by lia.
    replace (length filled - length filled)%nat with O by lia. simpl.
    specialize (IH (filled ++ ["-v=" +:+ vol]) todo).
    rewrite length_app in IH. simpl in IH.
    replace (length filled + 1)%nat with (S (length filled)) in IH by lia.
    rewrite <- !app_assoc in IH. simpl in IH. apply IH.
    simpl in Hlen. lia.
Qed.

Lemma volumeArgs_loop_all (volumes : list string) :
  volumeArgs_loop volumes 0 (replicate (length volumes) "") =
    map (fun vol => "-v=" +:+ vol) volumes.
Proof.
  apply (volumeArgs_loop_app volumes [] (replicate (length volumes) "")).
  apply length_replicate.
Qed.

Section Launcher.

Variable w : World.

Lemma run_body_launcher (commandName : string) (commandArgs volumes : list string)
  (path : string) (s : State) :
  Executable w = (path, None) ->
  run_body w (commandName :: commandArgs) volumes false s =
    run_tail w (reexec_cmd path volumes (commandName :: commandArgs)) s.
Proof.
  intros Hexe. unfold run_body, os_Executable, bind at 1 2 3. simpl.
  rewrite Hexe. simpl.
  unfold reexec_cmd, isolation, run_tail.
  destruct volumes as [|vol volumes]; [reflexivity|].
  change (0 <? length (vol :: volumes))%nat with true. cbv iota.
  rewrite volumeArgs_loop_all. reflexivity.
Qed.

Lemma run_launcher (commandName : string) (commandArgs volumes : list string)
  (path : string) (s : State) :
  Executable w = (path, None) ->
  let cmd := reexec_cmd path volumes (commandName :: commandArgs) in
  let a := answer w (st_trace s) (Run cmd) in
  let out := run w (commandName :: commandArgs) volumes false s in
  fst out = Exit (os.ExitCode (snd a)) /\
  st_trace (snd out) = st_trace s ++ [mkEvent (Run cmd) (fst a) (snd a)] /\
  st_stderr (snd out) = st_stderr s ++ match fst a with Some e => [e] | None => [] end.
Proof.
  intros Hexe cmd a out.
  pose proof (run_tail_spec w cmd (set_defers [] s)) as (Hcode & Htrace & Hstderr).
  cbv zeta in Hcode, Htrace, Hstderr.
  change (st_trace (set_defers [] s)) with (st_trace s) in Hcode, Htrace, Hstderr.
  change (st_stderr (set_defers [] s)) with (st_stderr s) in Hstderr.
  fold a in Hcode, Htrace, Hstderr.
  subst out. unfold run.
  rewrite (with_defers_Exit w _ s (os.ExitCode (snd a)));
    rewrite (run_body_launcher _ _ _ path _ Hexe); [|exact Hcode].
  simpl. split; [reflexivity|]. split; assumption.
Qed.

(** Without a path to the executable nothing is started. *)
Lemma run_launcher_no_executable (commandName : string) (commandArgs volumes : list string)
  (path : string) (e : error) (s : State) :
  Executable w = (path, Some e) ->
  let out := run w (commandName :: commandArgs) volumes false s in
  fst out = Exit 1 /\ st_trace (snd out) = st_trace s.
Proof.
  intros Hexe out. subst out. unfold run.
  assert (Hbody : run_body w (commandName :: commandArgs) volumes false (set_defers [] s) =
            (Exit 1, snd (to_stderr ("os.Executable(): " +:+ e) (set_defers [] s)))).
  { unfold run_body, os_Executable, bind at 1 2 3. simpl. rewrite Hexe. reflexivity. }
  rewrite (with_defers_Exit w _ s 1); rewrite Hbody; [|reflexivity].
  split; reflexivity.
Qed.

(** With no command at all [run] prints its diagnostic and exits. *)
Lemma run_no_args (volumes : list string) (isChild : bool) (s : State) :
  run w [] volumes isChild s =
    (Exit 1,
     {| st_trace := st_trace s; st_stdout := st_stdout s;
        st_stderr := st_stderr s ++ ["at least 1 argument is required"];
        st_rand := st_rand s; st_defers := [] |}).
Proof. reflexivity. Qed.

End Launcher.

Lemma main_loop_spec (rest : list string) :
  forall volumes args : list string,
    main_loop rest volumes args =
      (volumes ++
         map (fun arg => strings.TrimPrefix arg "-v=") (List.filter is_volume_arg rest),
       args ++ List.filter (fun arg => negb (is_volume_arg arg)) rest).
Proof.
  induction rest as [|arg rest IH]; intros volumes args; simpl.
  - rewrite !app_nil_r. reflexivity.
  - unfold is_volume_arg at 1 3 4.
    destruct (strings.HasPrefix arg "-v=") eqn:Hp; simpl;
      rewrite IH, <- !app_assoc; reflexivity.
Qed.

Lemma main_run (w : World) (exe : string) (isChild : bool) (rest : list string) :
  main w (exe :: role isChild :: rest) =
    run w (command_args rest) (volume_requests rest) isChild.
Proof.
  unfold main. cbn [length Nat.ltb Nat.leb]. unfold index. cbn [lookup list_lookup].
  unfold bind at 1, ret at 1.
  assert (Hsw : (String.eqb (role isChild) "run" || String.eqb (role isChild) "_child")
                = true) by (destruct isChild; reflexivity).
  assert (Hch : String.eqb (role isChild) "_child" = isChild)
    by (destruct isChild; reflexivity).
  rewrite Hsw, Hch.
  destruct rest as [|arg rest]; [reflexivity|].
  change (drop 2 (exe :: role isChild :: arg :: rest)) with (arg :: rest).
  cbn [length Nat.ltb Nat.leb].
  rewrite main_loop_spec. reflexivity.
Qed.

Lemma process_init_ok (w : World) (os_Args : list string) :
  ev_err (init_event w) = None ->
  process w os_Args = main w os_Args (after_init w).
Proof.
  intros H. unfold process, program, init, os_MkdirAll, call, bind, perform, ret.
  unfold after_init, init_event in *. simpl in *. rewrite H. reflexivity.
Qed.

Lemma process_init_fails (w : World) (os_Args : list string) (e : error) :
  ev_err (init_event w) = Some e ->
  process w os_Args =
    (Exit 1,
     {| st_trace := [init_event w]; st_stdout := [];
        st_stderr := ["init containersDir: " +:+ e];
        st_rand := O; st_defers := [] |}).
Proof.
  intros H. unfold process, program, init, os_MkdirAll, call, bind, perform, ret.
  unfold init_event in *. simpl in *. rewrite H. reflexivity.
Qed.

Lemma is_volume_arg_flag (vol : string) : is_volume_arg ("-v=" +:+ vol) = true.
Proof.
  unfold is_volume_arg, strings.HasPrefix.
  change ("-v=" +:+ vol) with (String "-" (String "v" (String "=" vol))).
  cbn [String.prefix].
  repeat (destruct (ascii_dec _ _) as [_|Hne]; [|contradiction]).
  destruct vol; reflexivity.
Qed.

Lemma TrimPrefix_flag (vol : string) : strings.TrimPrefix ("-v=" +:+ vol) "-v=" = vol.
Proof.
  unfold strings.TrimPrefix. fold (is_volume_arg ("-v=" +:+ vol)).
  rewrite is_volume_arg_flag. reflexivity.
Qed.

Lemma command_args_no_flag (rest : list string) :
  Forall (fun arg => is_volume_arg arg = false) (command_args rest).
Proof.
  unfold command_args. apply Forall_forall. intros arg Harg.
  apply list_elem_of_In, filter_In in Harg. destruct Harg as [_ Harg].
  destruct (is_volume_arg arg); [discriminate | reflexivity].
Qed.

Lemma command_args_id (args : list string) :
  Forall (fun arg => is_volume_arg arg = false) args -> command_args args = args.
Proof.
  unfold command_args. induction 1 as [|arg args Harg _ IH]; simpl.
  - reflexivity.
  - rewrite Harg. simpl. rewrite IH. reflexivity.
Qed.

Lemma command_args_app (l1 l2 : list string) :
  command_args (l1 ++ l2) = command_args l1 ++ command_args l2.
Proof. apply List.filter_app. Qed.

Lemma command_args_flags (volumes : list string) :
  command_args (map (fun vol => "-v=" +:+ vol) volumes) = [].
Proof.
  unfold command_args. induction volumes as [|vol volumes IH]; simpl.
  - reflexivity.
  - rewrite is_volume_arg_flag. exact IH.
Qed.

Lemma volume_requests_app (l1 l2 : list string) :
  volume_requests (l1 ++ l2) = volume_requests l1 ++ volume_requests l2.
Proof. unfold volume_requests. rewrite List.filter_app, map_app. reflexivity. Qed.

Lemma volume_requests_flags (volumes : list string) :
  volume_requests (map (fun vol => "-v=" +:+ vol) volumes) = volumes.
Proof.
  unfold volume_requests. induction volumes as [|vol volumes IH]; simpl.
  - reflexivity.
  - rewrite is_volume_arg_flag. simpl. rewrite TrimPrefix_flag, IH. reflexivity.
Qed.

Lemma volume_requests_none (args : list string) :
  Forall (fun arg => is_volume_arg arg = false) args -> volume_requests args = [].
Proof.
  unfold volume_requests. induction 1 as [|arg args Harg _ IH]; simpl.
  - reflexivity.
  - rewrite Harg. exact IH.
Qed.

Lemma calm_rand_ok : rand_ok calm.
Proof. intros k n Hn. apply Z.mod_pos_bound, Hn. Qed.

(** ** Properties *)

(** C9.  With an empty command list [run] does nothing but print its
    diagnostic and exit with code 1, in both roles: it performs no operation
    at all.  For the whole process, started as [run] or [_child] with volume
    flags only, the one operation performed is the [MkdirAll] of the
    containers directory in [init]: never a hostname, clone, mount or pivot
    call. *)
Theorem empty_command_is_fatal (w : World) (exe : string) (isChild : bool)
  (volumes : list string) (s : State) :
  (fst (run w [] volumes isChild s) = Exit 1 /\
   st_trace (snd (run w [] volumes isChild s)) = st_trace s /\
   st_stderr (snd (run w [] volumes isChild s)) =
     st_stderr s ++ ["at least 1 argument is required"]) /\
  (let out := process w (exe :: role isChild :: map (fun vol => "-v=" +:+ vol) volumes) in
   fst out = Exit 1 /\
   st_trace (snd out) = [init_event w] /\
   ev_op (init_event w) = MkdirAll containersDir perm_0700 /\
   exists line : string, st_stderr (snd out) = [line]).
Proof.
  split.
  - rewrite run_no_args. repeat split.
  - cbv zeta. destruct (ev_err (init_event w)) as [e|] eqn:Hinit.
    + rewrite (process_init_fails w _ e Hinit). simpl.
      repeat split. eexists. reflexivity.
    + rewrite (process_init_ok w _ Hinit), main_run, command_args_flags, run_no_args.
      simpl. repeat split. eexists. reflexivity.
Qed.

(** The three namespace flags are three different bits. *)
Lemma isolation_bits (n : Z) :
  Z.testbit (syscall.Cloneflags isolation) n = true <-> n = 17 \/ n = 26 \/ n = 29.
Proof.
  split.
  - intros H. destruct (Z.ltb_spec n 0) as [Hneg|Hpos].
    { rewrite Z.testbit_neg_r in H by exact Hneg. discriminate. }
    destruct (Z.ltb_spec n 30) as [Hlt|Hge].
    + assert (Hn : exists k : nat, n = Z.of_nat k /\ (k < 30)%nat).
      { exists (Z.to_nat n). lia. }
      destruct Hn as (k & -> & Hk).
      do 30 (destruct k as [|k]; [vm_compute in H; first [discriminate | lia]|]).
      lia.
    + rewrite Z.bits_above_log2 in H; [discriminate | vm_compute; discriminate |].
      change (Z.log2 (syscall.Cloneflags isolation)) with 29. lia.
  - intros [->|[->| ->]]; reflexivity.
Qed.

(** C7.  Everything the launcher starts is the re-execution of the program
    with the [_child] command, and it is started with clone flags
    CLONE_NEWUTS | CLONE_NEWPID | CLONE_NEWNS, exactly these three bits, and
    with unshare flags CLONE_NEWNS.  With a command and a path to the
    executable the launcher does start it. *)
Theorem launcher_isolation_flags (w : World) (args volumes : list string) (s : State) :
  (exists done : list Event,
     st_trace (snd (run w args volumes false s)) = st_trace s ++ done /\
     Forall (fun e => ev_op e = Run (reexec_cmd (fst (Executable w)) volumes args)) done /\
     (args <> [] -> snd (Executable w) = None -> length done = 1%nat)) /\
  exec.SysProcAttr (reexec_cmd (fst (Executable w)) volumes args) =
    Some {| syscall.Cloneflags :=
              Z.lor (Z.lor syscall.CLONE_NEWUTS syscall.CLONE_NEWPID) syscall.CLONE_NEWNS;
            syscall.Unshareflags := syscall.CLONE_NEWNS |} /\
  (forall n : Z,
     Z.testbit (Z.lor (Z.lor syscall.CLONE_NEWUTS syscall.CLONE_NEWPID) syscall.CLONE_NEWNS) n
       = true <-> n = 17 \/ n = 26 \/ n = 29) /\
  syscall.CLONE_NEWNS = 2 ^ 17 /\ syscall.CLONE_NEWUTS = 2 ^ 26 /\
  syscall.CLONE_NEWPID = 2 ^ 29.
Proof.
  split; [|split; [reflexivity | split; [exact isolation_bits | repeat split]]].
  destruct args as [|commandName commandArgs].
  { exists []. rewrite run_no_args. simpl. rewrite app_nil_r.
    repeat split; [constructor | intros H; contradiction]. }
  destruct (Executable w) as [path [e|]] eqn:Hexe.
  - exists []. destruct (run_launcher_no_executable w commandName commandArgs volumes
                          path e s Hexe) as [_ Htr].
    rewrite Htr, app_nil_r. repeat split; [constructor | intros _ H; discriminate H].
  - destruct (run_launcher w commandName commandArgs volumes path s Hexe)
      as (_ & Htr & _).
    eexists. split; [exact Htr|]. split; [|reflexivity].
    constructor; [reflexivity | constructor].
Qed.

Lemma launcher_isolation_flags_witness :
  exists done : list Event,
    st_trace (snd (run calm ["/bin/true"] ["/host/data:/data"] false init_state)) =
      st_trace init_state ++ done /\
    length done = 1%nat.
Proof.
  destruct (launcher_isolation_flags calm ["/bin/true"] ["/host/data:/data"] init_state)
    as [(done & Htr & _ & Hlen) _].
  exists done. split; [exact Htr|].
  apply Hlen; [discriminate | reflexivity].
Defined.

(** A function that performs a strict sequence leaves a trace in strict
    order, and either returns after all its steps succeeded or has exited
    with code 1 right after the step that failed. *)
Lemma fatal_steps_in_order {A : Type} (w : World) (m : M A) (ops : list Op) (v : A) :
  fatal_steps w m ops (Some v) ->
  forall s : State,
    exists done : list Event,
      st_trace (snd (m s)) = st_trace s ++ done /\
      in_strict_order ops done /\
      ((fst (m s) = Ok v /\ all_succeeded ops done /\
        st_stderr (snd (m s)) = st_stderr s) \/
       (fst (m s) = Exit 1 /\ stopped_at_failure done /\
        exists line : string, st_stderr (snd (m s)) = st_stderr s ++ [line])).
Proof.
  intros Hm s. destruct (Hm s) as [Htr Hres].
  destruct (exec_ops_spec w ops (st_trace s)) as (done & Hdone & Hord & Hend).
  exists done. split; [congruence|]. split; [exact Hord|].
  destruct (snd (exec_ops w (st_trace s) ops)).
  - left. destruct Hres as [Hr Herr]. split; [exact Hr|]. split; [exact Hend | exact Herr].
  - right. destruct Hres as [Hr Herr]. split; [exact Hr|]. split; [exact Hend | exact Herr].
Qed.

(** C6.  [pivotRoot newRoot] performs four steps in this order: the
    recursive bind mount of [newRoot] onto itself, the creation of
    [.put_old] in [newRoot], the pivot to [newRoot] with the old root under
    [.put_old], the change of directory to [/].  A step is performed only
    after the earlier ones succeeded; when all four succeed the function
    returns, and when one fails the process prints a line and exits with
    code 1 at once. *)
Theorem pivotRoot_four_steps (w : World) (newRoot : string) (s : State) :
  let putOld := filepath.Join [newRoot; ".put_old"] in
  let steps :=
    [ Mount newRoot newRoot "" (Z.lor syscall.MS_BIND syscall.MS_REC) "";
      MkdirAll putOld perm_0700;
      PivotRoot newRoot putOld;
      Chdir "/" ] in
  exists done : list Event,
    st_trace (snd (pivotRoot w newRoot s)) = st_trace s ++ done /\
    in_strict_order steps done /\
    ((fst (pivotRoot w newRoot s) = Ok tt /\ all_succeeded steps done /\
      st_stderr (snd (pivotRoot w newRoot s)) = st_stderr s) \/
     (fst (pivotRoot w newRoot s) = Exit 1 /\ stopped_at_failure done /\
      exists line : string,
        st_stderr (snd (pivotRoot w newRoot s)) = st_stderr s ++ [line])).
Proof.
  exact (fatal_steps_in_order w _ _ tt (pivotRoot_steps w newRoot) s).
Qed.

(** The retirement directory of a container lies in its root. *)
Lemma putOld_of_identity (id : string) :
  is_identity id ->
  filepath.Join ["containers/" +:+ id; ".put_old"] = "containers/" +:+ id +:+ "/.put_old".
Proof.
  intros (rs & -> & _ & Hrs). apply alnum_no_slash in Hrs.
  assert (Hsplit : strings.genSplit "/" 0 (rs +:+ "/.put_old") = [rs; ".put_old"]).
  { unfold no_slash in Hrs. induction rs as [|c r IH].
    - reflexivity.
    - cbn [String.list_ascii_of_string] in Hrs. inversion Hrs as [|? ? Hc Hr]; subst.
      change (String c r +:+ "/.put_old") with (String c (r +:+ "/.put_old")).
      cbn [strings.genSplit]. rewrite (prefix_slash c _ Hc), (IH Hr). reflexivity. }
  unfold filepath.Join, filepath.Clean, strings.Split, strings.Join.
  cbn [String.concat].
  change (("containers/" +:+ "b-" +:+ rs) +:+ "/" +:+ ".put_old")
    with ("containers/b-" +:+ (rs +:+ "/.put_old")).
  change ("containers/" +:+ "b-" +:+ rs +:+ "/.put_old")
    with ("containers/b-" +:+ (rs +:+ "/.put_old")).
  simpl. change ("" +:+ rs +:+ "/.put_old") with (rs +:+ "/.put_old").
  rewrite Hsplit. simpl.
  destruct rs as [|c r]; [reflexivity|].
  inversion Hrs as [|? ? Hc Hr]; subst.
  reflexivity.
Qed.

Lemma child_bootstrap (w : World) (Hw : rand_ok w) (commandName : string)
  (commandArgs volumes : list string) (s : State) :
  let args := commandName :: commandArgs in
  let id := container_id w (st_rand s) in
  let out := run w args volumes true s in
  exists done : list Event,
    st_trace (snd out) = st_trace s ++ done /\
    (child_ran w id args volumes s out done \/ child_aborted id volumes s out done).
Proof.
  intros args id out.
  pose proof (run_child w Hw commandName commandArgs volumes s) as H.
  cbv zeta in H. fold args id out in H.
  destruct (exec_ops_spec w (setup_steps id volumes) (st_trace s))
    as (pre & Hpre & Hord & Hend).
  destruct (snd (exec_ops w (st_trace s) (setup_steps id volumes))) eqn:Hok;
    [destruct (forallb two_parts volumes) eqn:Hwf|]; cbn [andb] in H.
  - destruct H as (Hcode & Htr & Herr). rewrite Hpre in Hcode, Htr, Herr.
    eexists. split; [rewrite Htr, <- app_assoc; reflexivity|].
    left. eexists pre, _. split; [reflexivity|].
    split; [exact Hend|]. split; [exact Hwf|]. split; [reflexivity|].
    split; [simpl; symmetry; apply surjective_pairing|].
    split; [exact Hcode | exact Herr].
  - destruct H as (Hcode & Htr & Herr). rewrite Hpre in Htr.
    exists pre. split; [exact Htr|]. right.
    split; [exact Hord|]. split; [right; split; [exact Hwf | exact Hend]|].
    split; [exact Hcode | exact Herr].
  - destruct H as (Hcode & Htr & Herr). rewrite Hpre in Htr.
    exists pre. split; [exact Htr|]. right.
    split; [exact Hord|]. split; [left; exact Hend|].
    split; [exact Hcode | exact Herr].
Qed.

Lemma volumes_steps_all (rootfsDir : string) (volumes : list string) :
  forallb two_parts volumes = true ->
  volumes_steps rootfsDir volumes = flat_map (volume_steps rootfsDir) volumes.
Proof.
  induction volumes as [|volume rest IH]; simpl; intros H.
  - reflexivity.
  - apply andb_prop in H. destruct H as [Hv Hrest]. rewrite Hv, (IH Hrest). reflexivity.
Qed.

(** The child, exactly.  The events of steps 1 to 5 are the ones that the
    strict sequence [setup_steps] yields in the world; then, when all steps
    succeeded and every volume string had two parts, one more event, the run
    of the command of the user with the answer of the world; otherwise
    nothing more and the exit with code 1. *)
Lemma child_exact (w : World) (Hw : rand_ok w) (commandName : string)
  (commandArgs volumes : list string) (s : State) :
  let args := commandName :: commandArgs in
  let steps := setup_steps (container_id w (st_rand s)) volumes in
  let out := run w args volumes true s in
  exists pre : list Event,
    fst (exec_ops w (st_trace s) steps) = st_trace s ++ pre /\
    in_strict_order steps pre /\
    ((forallb two_parts volumes = true /\
      all_succeeded steps pre /\
      exists e : Event,
        st_trace (snd out) = st_trace s ++ pre ++ [e] /\
        ev_op e = Run (user_cmd args) /\
        (ev_err e, ev_state e) = answer w (st_trace s ++ pre) (Run (user_cmd args)) /\
        fst out = Exit (os.ExitCode (ev_state e)) /\
        st_stderr (snd out) =
          st_stderr s ++ match ev_err e with Some msg => [msg] | None => [] end) \/
     ((stopped_at_failure pre \/
       (forallb two_parts volumes = false /\ all_succeeded steps pre)) /\
      st_trace (snd out) = st_trace s ++ pre /\
      fst out = Exit 1 /\
      exists line : string, st_stderr (snd out) = st_stderr s ++ [line])).
Proof.
  intros args steps out.
  pose proof (run_child w Hw commandName commandArgs volumes s) as H.
  cbv zeta in H. fold args steps out in H.
  destruct (exec_ops_spec w steps (st_trace s)) as (pre & Hpre & Hord & Hend).
  exists pre. split; [exact Hpre|]. split; [exact Hord|].
  destruct (snd (exec_ops w (st_trace s) steps)) eqn:Hok;
    [destruct (forallb two_parts volumes) eqn:Hwf|]; cbn [andb] in H.
  - destruct H as (Hcode & Htr & Herr). rewrite Hpre in Hcode, Htr, Herr.
    left. split; [reflexivity|]. split; [exact Hend|].
    eexists. split; [rewrite Htr, <- app_assoc; reflexivity|].
    split; [reflexivity|]. split; [simpl; symmetry; apply surjective_pairing|].
    split; [exact Hcode | exact Herr].
  - destruct H as (Hcode & Htr & Herr). rewrite Hpre in Htr.
    right. split; [right; split; [reflexivity | exact Hend]|].
    split; [exact Htr|]. split; [exact Hcode | exact Herr].
  - destruct H as (Hcode & Htr & Herr). rewrite Hpre in Htr.
    right. split; [left; exact Hend|].
    split; [exact Htr|]. split; [exact Hcode | exact Herr].
Qed.

(** C5.  A child with a command generates an identity [id] and then follows
    the strict sequence: hostname [id]; root filesystem extracted into
    [containers/<id>]; the volumes, in order; the root switch; procfs on
    [/proc]; and only after all of these succeeded, the command of the user.
    The events of these steps are exactly the ones that performing them one
    after the other, up to the first failure, yields in the world.  The
    command is run only when every volume string had two parts and every
    step, the root switch and the procfs mount included, succeeded; a
    failed step, or a volume string without two parts, ends the process at
    once with code 1, with nothing performed after it. *)
Theorem child_bootstrap_order (w : World) (Hw : rand_ok w) (commandName : string)
  (commandArgs volumes : list string) (s : State) :
  let args := commandName :: commandArgs in
  let out := run w args volumes true s in
  exists (id : string) (pre : list Event),
    is_identity id /\
    setup_steps id volumes =
      [Sethostname id] ++
      [MkdirAll ("containers/" +:+ id) perm_0700;
       Run (exec.Command "tar" ["-xzf"; rootFsTarball; "-C"; "containers/" +:+ id])] ++
      volumes_steps ("containers/" +:+ id) volumes ++
      (if forallb two_parts volumes
       then root_switch_steps ("containers/" +:+ id) ++ [Mount "proc" "/proc" "proc" 0 ""]
       else []) /\
    fst (exec_ops w (st_trace s) (setup_steps id volumes)) = st_trace s ++ pre /\
    in_strict_order (setup_steps id volumes) pre /\
    ((forallb two_parts volumes = true /\
      map ev_op pre =
        [Sethostname id] ++
        [MkdirAll ("containers/" +:+ id) perm_0700;
         Run (exec.Command "tar" ["-xzf"; rootFsTarball; "-C"; "containers/" +:+ id])] ++
        flat_map (volume_steps ("containers/" +:+ id)) volumes ++
        root_switch_steps ("containers/" +:+ id) ++
        [Mount "proc" "/proc" "proc" 0 ""] /\
      Forall succeeded pre /\
      exists e : Event,
        st_trace (snd out) = st_trace s ++ pre ++ [e] /\
        ev_op e = Run (user_cmd args) /\
        (ev_err e, ev_state e) = answer w (st_trace s ++ pre) (Run (user_cmd args)) /\
        fst out = Exit (os.ExitCode (ev_state e))) \/
     ((stopped_at_failure pre \/
       (forallb two_parts volumes = false /\
        all_succeeded (setup_steps id volumes) pre)) /\
      st_trace (snd out) = st_trace s ++ pre /\
      fst out = Exit 1)).
Proof.
  intros args out.
  destruct (child_exact w Hw commandName commandArgs volumes s)
    as (pre & Htie & Hord & Hcases).
  cbv zeta in Htie, Hord, Hcases. fold args out in Hcases.
  exists (container_id w (st_rand s)), pre.
  split; [apply container_id_is_identity, Hw|].
  split; [reflexivity|]. split; [exact Htie|]. split; [exact Hord|].
  destruct Hcases as [(Hwf & [Hops Hall] & e & Htr & Hop & Hans & Hcode & _)
                     | (Hwhy & Htr & Hcode & _)].
  - left. split; [exact Hwf|]. split.
    + rewrite Hops. unfold setup_steps. rewrite Hwf, (volumes_steps_all _ _ Hwf).
      reflexivity.
    + split; [exact Hall|]. exists e. repeat split; assumption.
  - right. split; [exact Hwhy|]. split; [exact Htr | exact Hcode].
Qed.

Lemma child_bootstrap_order_witness :
  exists (id : string) (pre : list Event),
    is_identity id /\
    fst (exec_ops calm (st_trace init_state)
           (setup_steps id ["/host/data:/data"])) = st_trace init_state ++ pre.
Proof.
  destruct (child_bootstrap_order calm calm_rand_ok "/bin/echo" ["hello"]
              ["/host/data:/data"] init_state) as (id & pre & Hid & _ & Htie & _).
  exists id, pre. split; [exact Hid | exact Htie].
Defined.

(** The first step of a strict sequence is always performed. *)
Lemma exec_ops_head (w : World) (op : Op) (ops : list Op) (tr : list Event) :
  exists (e : Event) (rest : list Event),
    fst (exec_ops w tr (op :: ops)) = tr ++ e :: rest /\ ev_op e = op.
Proof.
  simpl. destruct (fst (answer w tr op)) eqn:Herr.
  - eexists _, []. split; reflexivity.
  - destruct (exec_ops_spec w ops (tr ++ [mkEvent op None (snd (answer w tr op))]))
      as (done & Hdone & _).
    eexists _, done. rewrite Hdone, <- app_assoc. split; reflexivity.
Qed.

(** C8.  [randomString(16)] returns 16 characters, each of [a-zA-Z0-9], and
    the identity of a container is [b-] followed by them: it is the
    hostname that the child sets first. *)
Theorem identity_format (w : World) (Hw : rand_ok w) (s : State) :
  exists rs : string,
    fst (randomString w 16 s) = Ok rs /\
    String.length rs = 16%nat /\
    Forall (fun c => alnum c = true) (String.list_ascii_of_string rs) /\
    is_identity ("b-" +:+ rs) /\
    forall (commandName : string) (commandArgs volumes : list string),
      exists (e : Event) (rest : list Event),
        st_trace (snd (run w (commandName :: commandArgs) volumes true s)) =
          st_trace s ++ e :: rest /\
        ev_op e = Sethostname ("b-" +:+ rs).
Proof.
  exists (String.string_of_list_ascii (drawn w (st_rand s) 16)).
  pose proof (container_id_is_identity w Hw (st_rand s)) as Hid.
  split; [rewrite (randomString_16 w Hw); reflexivity|].
  split; [rewrite length_string_of_list_ascii; apply drawn_length|].
  split; [rewrite String.list_ascii_of_string_of_list_ascii; apply drawn_alnum, Hw|].
  split; [exact Hid|].
  intros commandName commandArgs volumes.
  pose proof (run_child w Hw commandName commandArgs volumes s) as H.
  cbv zeta in H.
  destruct (exec_ops_head w (Sethostname (container_id w (st_rand s)))
              (tl (setup_steps (container_id w (st_rand s)) volumes)) (st_trace s))
    as (e & rest & Hhead & Hop).
  change (Sethostname (container_id w (st_rand s)) ::
          tl (setup_steps (container_id w (st_rand s)) volumes))
    with (setup_steps (container_id w (st_rand s)) volumes) in Hhead.
  destruct (_ && _) in H; destruct H as (_ & Htr & _); rewrite Hhead in Htr.
  - exists e. eexists. rewrite Htr, <- app_assoc. split; [reflexivity | exact Hop].
  - exists e, rest. split; [exact Htr | exact Hop].
Qed.

Lemma identity_format_witness :
  exists rs : string,
    fst (randomString calm 16 init_state) = Ok rs /\ String.length rs = 16%nat.
Proof.
  destruct (identity_format calm calm_rand_ok init_state) as (rs & Hrs & Hlen & _).
  exists rs. split; [exact Hrs | exact Hlen].
Defined.

Example randomString_calm :
  fst (randomString calm 16 init_state) = Ok "dkryFMT07elszGNU".
Proof. reflexivity. Qed.

Example randomString_zero : fst (randomString calm 0 init_state) = Ok "".
Proof. reflexivity. Qed.

Lemma volumes_steps_ops (id rootfsDir : string) (volumes : list string) :
  Forall (setup_op id) (volumes_steps rootfsDir volumes).
Proof.
  induction volumes as [|volume rest IH]; simpl.
  - constructor.
  - destruct (two_parts volume); [|constructor].
    repeat (constructor; [exact I|]). exact IH.
Qed.

Lemma setup_steps_ops (id : string) (volumes : list string) :
  Forall (setup_op id) (setup_steps id volumes).
Proof.
  unfold setup_steps. constructor; [exact I|].
  apply Forall_app. split; [repeat constructor|].
  apply Forall_app. split; [apply volumes_steps_ops|].
  destruct (forallb two_parts volumes); repeat constructor.
Qed.

Lemma in_strict_order_ops (P : Op -> Prop) (steps : list Op) (done : list Event) :
  Forall P steps -> in_strict_order steps done -> Forall (fun e => P (ev_op e)) done.
Proof.
  intros Hsteps [[k Hpre] _]. rewrite Hpre in Hsteps.
  apply Forall_app in Hsteps. destruct Hsteps as [Hdone _].
  exact (proj1 (List.Forall_map ev_op P done) Hdone).
Qed.

Lemma all_succeeded_ops (P : Op -> Prop) (steps : list Op) (done : list Event) :
  Forall P steps -> all_succeeded steps done -> Forall (fun e => P (ev_op e)) done.
Proof.
  intros Hsteps [Hops _]. rewrite <- Hops in Hsteps.
  exact (proj1 (List.Forall_map ev_op P done) Hsteps).
Qed.

(** The operations of a child are setup operations, except the last one
    when it is the run of the command of the user. *)
Lemma child_ops (w : World) (Hw : rand_ok w) (commandName : string)
  (commandArgs volumes : list string) (s : State) :
  let args := commandName :: commandArgs in
  let id := container_id w (st_rand s) in
  exists done : list Event,
    st_trace (snd (run w args volumes true s)) = st_trace s ++ done /\
    Forall (fun e => setup_op id (ev_op e) \/ ev_op e = Run (user_cmd args)) done.
Proof.
  intros args id.
  destruct (child_bootstrap w Hw commandName commandArgs volumes s)
    as (done & Htr & Hcases).
  exists done. split; [exact Htr|].
  pose proof (setup_steps_ops id volumes) as Hsteps.
  destruct Hcases as [(pre & e & -> & Hall & _ & Hop & _) | (Hord & _)].
  - apply Forall_app. split.
    + eapply Forall_impl; [exact (all_succeeded_ops _ _ _ Hsteps Hall)|].
      intros e' He'. left. exact He'.
    + constructor; [right; exact Hop | constructor].
  - eapply Forall_impl; [exact (in_strict_order_ops _ _ _ Hsteps Hord)|].
    intros e' He'. left. exact He'.
Qed.

(** ** Volumes *)

Lemma volumes_steps_stop (rootfsDir bad : string) (pre post : list string) :
  forallb two_parts pre = true ->
  two_parts bad = false ->
  volumes_steps rootfsDir (pre ++ bad :: post) = flat_map (volume_steps rootfsDir) pre /\
  forallb two_parts (pre ++ bad :: post) = false.
Proof.
  intros Hpre Hbad. induction pre as [|volume pre IH]; simpl in *.
  - rewrite Hbad. split; reflexivity.
  - apply andb_prop in Hpre. destruct Hpre as [Hv Hpre]. rewrite Hv.
    destruct (IH Hpre) as [-> ->]. split; reflexivity.
Qed.

Lemma mounts_of_volumes (rootfsDir : string) (volumes : list string) :
  length (List.filter is_mount (flat_map (volume_steps rootfsDir) volumes)) = length volumes.
Proof.
  induction volumes as [|volume rest IH]; simpl; [reflexivity | now rewrite IH].
Qed.

Lemma filter_prefix_length {A : Type} (f : A -> bool) (l1 l2 : list A) :
  l1 `prefix_of` l2 -> (length (List.filter f l1) <= length (List.filter f l2))%nat.
Proof.
  intros [k ->]. rewrite List.filter_app, length_app. lia.
Qed.

(** The check of [run] asks for two components and nothing more: every
    well-formed mapping passes it, and so does a string with an empty
    component. *)
Lemma well_formed_two_parts (volume : string) :
  well_formed_mapping volume = true -> two_parts volume = true.
Proof.
  unfold well_formed_mapping, two_parts.
  destruct (strings.Split volume ":") as [|p0 [|p1 [|p2 parts]]];
    intros H; try discriminate H; reflexivity.
Qed.

Example empty_components_pass :
  well_formed_mapping ":" = false /\ two_parts ":" = true.
Proof. split; reflexivity. Qed.

(** C2, as stated, fails: with a good mapping before a malformed one, the
    good one is mounted before the fatal error. *)
Lemma malformed_volume_after_mount :
  let out := run calm ["/bin/true"] ["/a:/b"; "bad"] true init_state in
  well_formed_mapping "bad" = false /\
  fst out = Exit 1 /\
  List.filter is_mount (map ev_op (st_trace (snd out))) =
    [Mount "/a" "containers/b-dkryFMT07elszGNU/b" ""
       (Z.lor syscall.MS_BIND syscall.MS_REC) ""] /\
  mount_calls (st_trace (snd out)) = 1%nat.
Proof. vm_compute. repeat split. Qed.

(** C2, amended.  When the volume list has a string that does not split
    into exactly two components, the child performs the strict sequence of
    the hostname, the root filesystem and the volumes before the first such
    string, exactly as the world answers them, and nothing else: nothing for
    this string or a volume after it, no root switch, no procfs, no command.
    Either a step of that sequence failed and was the last one, or all of
    them succeeded, so that every volume before the string is mounted, with
    exactly one mount call for each.  Then the child exits with code 1
    after one more line on standard error.  In any case the mount calls are
    at most the ones of the volumes before that string: none when it is the
    first volume. *)
Theorem malformed_volume_aborts (w : World) (Hw : rand_ok w) (commandName : string)
  (commandArgs pre post : list string) (bad : string) (s : State)
  (Hpre : forallb two_parts pre = true) (Hbad : two_parts bad = false) :
  let out := run w (commandName :: commandArgs) (pre ++ bad :: post) true s in
  exists (id : string) (done : list Event),
    let steps :=
      Sethostname id ::
      provision_steps ("containers/" +:+ id) rootFsTarball ++
      flat_map (volume_steps ("containers/" +:+ id)) pre in
    is_identity id /\
    st_trace (snd out) = st_trace s ++ done /\
    fst (exec_ops w (st_trace s) steps) = st_trace s ++ done /\
    in_strict_order steps done /\
    (stopped_at_failure done \/ all_succeeded steps done) /\
    (all_succeeded steps done -> mount_calls done = length pre) /\
    (mount_calls done <= length pre)%nat /\
    fst out = Exit 1 /\
    exists line : string, st_stderr (snd out) = st_stderr s ++ [line].
Proof.
  intros out.
  destruct (volumes_steps_stop ("containers/" +:+ container_id w (st_rand s))
              bad pre post Hpre Hbad) as [Hsteps Hwf].
  destruct (child_exact w Hw commandName commandArgs (pre ++ bad :: post) s)
    as (done & Htie & Hord & Hcases).
  cbv zeta in Htie, Hord, Hcases. fold out in Hcases.
  unfold setup_steps in Htie, Hord, Hcases.
  rewrite Hsteps, Hwf, app_nil_r in Htie, Hord, Hcases.
  exists (container_id w (st_rand s)), done. cbv zeta.
  split; [apply container_id_is_identity, Hw|].
  destruct Hcases as [(Hwf' & _) | (Hwhy & Htr & Hcode & Herr)]; [discriminate Hwf'|].
  split; [exact Htr|]. split; [exact Htie|]. split; [exact Hord|].
  split; [destruct Hwhy as [Hstop | [_ Hall]]; [left | right]; assumption|].
  split.
  - intros [Hops _]. unfold mount_calls. rewrite Hops. simpl.
    apply mounts_of_volumes.
  - split; [|split; [exact Hcode | exact Herr]].
    destruct Hord as [Hprefix _]. unfold mount_calls.
    etransitivity; [exact (filter_prefix_length is_mount _ _ Hprefix)|].
    simpl. rewrite mounts_of_volumes. lia.
Qed.

Lemma malformed_volume_aborts_witness :
  fst (run calm ["/bin/true"] (["/a:/b"] ++ "bad" :: ["/c:/d"]) true init_state) = Exit 1.
Proof.
  destruct (malformed_volume_aborts calm calm_rand_ok "/bin/true" []
              ["/a:/b"] ["/c:/d"] "bad" init_state eq_refl eq_refl)
    as (id & done & _ & _ & _ & _ & _ & _ & _ & Hcode & _).
  exact Hcode.
Defined.

(** ** Deferred calls *)

(** A function that returns runs its deferred calls. *)
Example deferred_calls_run_on_return :
  map ev_op
    (st_trace (snd (with_defers calm
                      (defer (DeferUnmountVolumes ["/data"; "/logs"]) ;;
                       defer DeferUnmountProc ;;
                       ret tt) init_state))) =
  [Unmount "/proc" 0; Unmount "/data" 0; Unmount "/logs" 0].
Proof. reflexivity. Qed.

(** A function that leaves through [os.Exit] does not. *)
Example deferred_calls_skipped_on_exit :
  st_trace (snd (with_defers calm
                   (defer (DeferUnmountVolumes ["/data"; "/logs"]) ;;
                    os_Exit (A := unit) 0) init_state)) = [].
Proof. reflexivity. Qed.

(** A child never unmounts anything: [run] always leaves through [os.Exit]
    or [log.Fatal]. *)
Lemma child_never_unmounts (w : World) (Hw : rand_ok w) (commandName : string)
  (commandArgs volumes : list string) (s : State) :
  exists done : list Event,
    st_trace (snd (run w (commandName :: commandArgs) volumes true s)) =
      st_trace s ++ done /\
    Forall (fun e => is_unmount (ev_op e) = false) done.
Proof.
  destruct (child_ops w Hw commandName commandArgs volumes s) as (done & Htr & Hops).
  exists done. split; [exact Htr|].
  eapply Forall_impl; [exact Hops|].
  intros e [He | He].
  - destruct (ev_op e); try reflexivity. destruct He.
  - rewrite He. reflexivity.
Qed.

(** C3 fails on the code.  A child with one volume, in a world where
    everything succeeds: the volume, the root and procfs are mounted, the
    command exits with code 0 and so does the child, and no unmount is
    performed; the two deferred calls are still pending at the exit. *)
Theorem deferred_unmounts_never_run :
  let out := run calm ["/bin/true"] ["/host/data:/data"] true init_state in
  fst out = Exit 0 /\
  mount_calls (st_trace (snd out)) = 3%nat /\
  List.filter is_unmount (map ev_op (st_trace (snd out))) = [] /\
  st_defers (snd out) = [DeferUnmountProc; DeferUnmountVolumes ["/data"]].
Proof. vm_compute. repeat split. Qed.

(** ** The command of the user *)

(** C4, as stated, fails: the child does not replace its process image.  It
    starts the command as a further child process and waits for it ([Run]),
    and then exits itself; no [Exec] is ever performed. *)
Lemma command_is_run_not_exec :
  let out := run calm ["/bin/true"] [] true init_state in
  last (map ev_op (st_trace (snd out))) = Some (Run (user_cmd ["/bin/true"])) /\
  List.filter is_exec (map ev_op (st_trace (snd out))) = [] /\
  fst out = Exit 0.
Proof. vm_compute. repeat split. Qed.

(** C4, amended.  The child never replaces its process image.  It performs
    steps 1 to 5 exactly as the world answers them.  When every volume
    string had two parts and all of these steps succeeded, its next and last
    operation is [Run] on the command of the user, with the arguments of the
    user and the standard streams of the child: a further child process
    that it creates and waits for, and the exit code of that process is
    what the child then passes to [os.Exit].  When a step failed, or a
    volume string had not two parts, the command is not run and the child
    exits with code 1. *)
Theorem command_runs_as_child_process (w : World) (Hw : rand_ok w) (commandName : string)
  (commandArgs volumes : list string) (s : State) :
  let out := run w (commandName :: commandArgs) volumes true s in
  let command :=
    {| exec.Path := commandName; exec.Args := commandName :: commandArgs;
       exec.Stdin := Some os.Stdin; exec.Stdout := Some os.Stdout;
       exec.Stderr := Some os.Stderr; exec.SysProcAttr := None |} in
  exists (id : string) (pre : list Event),
    is_identity id /\
    fst (exec_ops w (st_trace s) (setup_steps id volumes)) = st_trace s ++ pre /\
    Forall (fun e => is_exec (ev_op e) = false /\ ev_op e <> Run command) pre /\
    ((forallb two_parts volumes = true /\
      all_succeeded (setup_steps id volumes) pre /\
      exists e : Event,
        st_trace (snd out) = st_trace s ++ pre ++ [e] /\
        ev_op e = Run command /\
        (ev_err e, ev_state e) = answer w (st_trace s ++ pre) (Run command) /\
        fst out = Exit (os.ExitCode (ev_state e))) \/
     ((stopped_at_failure pre \/
       (forallb two_parts volumes = false /\
        all_succeeded (setup_steps id volumes) pre)) /\
      st_trace (snd out) = st_trace s ++ pre /\
      fst out = Exit 1)).
Proof.
  intros out command.
  destruct (child_exact w Hw commandName commandArgs volumes s)
    as (pre & Htie & Hord & Hcases).
  cbv zeta in Htie, Hord, Hcases. fold out in Hcases.
  change (user_cmd (commandName :: commandArgs)) with command in Hcases.
  exists (container_id w (st_rand s)), pre.
  split; [apply container_id_is_identity, Hw|]. split; [exact Htie|]. split.
  - eapply Forall_impl;
      [exact (in_strict_order_ops _ _ _ (setup_steps_ops _ _) Hord)|].
    intros e He. cbv beta in He. split.
    + destruct (ev_op e); try reflexivity. destruct He.
    + intros Heq. rewrite Heq in He. simpl in He. discriminate He.
  - destruct Hcases as [(Hwf & Hall & e & Htr & Hop & Hans & Hcode & _)
                       | (Hwhy & Htr & Hcode & _)].
    + left. split; [exact Hwf|]. split; [exact Hall|].
      exists e. repeat split; assumption.
    + right. split; [exact Hwhy|]. split; [exact Htr | exact Hcode].
Qed.

Lemma command_runs_as_child_process_witness :
  exists (id : string) (pre : list Event),
    is_identity id /\
    fst (exec_ops calm (st_trace init_state) (setup_steps id [])) =
      st_trace init_state ++ pre.
Proof.
  destruct (command_runs_as_child_process calm calm_rand_ok "/bin/echo" ["hello"] []
              init_state) as (id & pre & Hid & Htie & _).
  exists id, pre. split; [exact Hid | exact Htie].
Defined.

Lemma tar_no_volume_flag (id : string) :
  no_volume_flag
    (exec.Args (exec.Command "tar" ["-xzf"; rootFsTarball; "-C"; "containers/" +:+ id])).
Proof.
  unfold no_volume_flag. simpl. repeat (constructor; [reflexivity|]). constructor.
Qed.

(** No command that a child process runs has a [-v=] argument. *)
Lemma child_process_no_volume_flag (w : World) (Hw : rand_ok w) (exe : string)
  (rest : list string) :
  Forall (fun e => forall c : exec.Cmd, ev_op e = Run c -> no_volume_flag (exec.Args c))
    (st_trace (snd (process w (exe :: "_child" :: rest)))).
Proof.
  assert (Hinit : forall c : exec.Cmd,
            ev_op (init_event w) = Run c -> no_volume_flag (exec.Args c))
    by (intros c H; discriminate H).
  destruct (ev_err (init_event w)) as [e|] eqn:He.
  { rewrite (process_init_fails w _ e He). simpl. constructor; [exact Hinit | constructor]. }
  rewrite (process_init_ok w _ He).
  change (exe :: "_child" :: rest) with (exe :: role true :: rest).
  rewrite (main_run w exe true rest).
  destruct (command_args rest) as [|commandName commandArgs] eqn:Hargs.
  { rewrite run_no_args. simpl. constructor; [exact Hinit | constructor]. }
  destruct (child_ops w Hw commandName commandArgs (volume_requests rest) (after_init w))
    as (done & Htr & Hops).
  rewrite Htr. simpl. constructor; [exact Hinit|].
  eapply Forall_impl; [exact Hops|].
  intros ev [Hev | Hev] c Hc; rewrite Hc in Hev.
  - simpl in Hev. rewrite Hev. apply tar_no_volume_flag.
  - injection Hev as ->. simpl. rewrite <- Hargs. apply command_args_no_flag.
Qed.

(** C10.  [main] sorts its arguments after the command name: the ones that
    start with [-v=], wherever they stand, become the volumes (without the
    prefix), and the others, in their order, the command of the user and
    its arguments.  The launcher passes the volumes on as [-v=] arguments
    and the child sorts them out again, so the child gets the same command
    and volumes, and no command that a child runs has an argument that
    starts with [-v=]. *)
Theorem volume_flags_never_reach_command (w : World) (Hw : rand_ok w) (exe : string)
  (isChild : bool) (rest : list string) :
  main w (exe :: role isChild :: rest) =
    run w (List.filter (fun arg => negb (strings.HasPrefix arg "-v=")) rest)
      (map (fun arg => strings.TrimPrefix arg "-v=")
         (List.filter (fun arg => strings.HasPrefix arg "-v=") rest))
      isChild /\
  Forall (fun arg => strings.HasPrefix arg "-v=" = false) (command_args rest) /\
  Forall (fun e => forall c : exec.Cmd,
            ev_op e = Run c ->
            Forall (fun arg => strings.HasPrefix arg "-v=" = false) (exec.Args c))
    (st_trace (snd (process w (exe :: "_child" :: rest)))) /\
  forall path : string,
    command_args
      (drop 2 (exec.Args (reexec_cmd path (volume_requests rest) (command_args rest)))) =
      command_args rest /\
    volume_requests
      (drop 2 (exec.Args (reexec_cmd path (volume_requests rest) (command_args rest)))) =
      volume_requests rest.
Proof.
  split; [exact (main_run w exe isChild rest)|].
  split; [exact (command_args_no_flag rest)|].
  split; [exact (child_process_no_volume_flag w Hw exe rest)|].
  intros path. simpl. unfold drop.
  rewrite command_args_app, volume_requests_app, command_args_flags,
    volume_requests_flags.
  rewrite (command_args_id _ (command_args_no_flag rest)).
  rewrite (volume_requests_none _ (command_args_no_flag rest)).
  rewrite app_nil_r. split; reflexivity.
Qed.

Lemma volume_flags_never_reach_command_witness :
  main calm ["focker"; role false; "-v=/a:/b"; "/bin/ls"; "-v=/c:/d"; "-l"] =
    run calm ["/bin/ls"; "-l"] ["/a:/b"; "/c:/d"] false.
Proof.
  exact (proj1 (volume_flags_never_reach_command calm calm_rand_ok "focker" false
                  ["-v=/a:/b"; "/bin/ls"; "-v=/c:/d"; "-l"])).
Defined.

Lemma land_255 (code : Z) : 0 <= code <= 255 -> Z.land code 255 = code.
Proof.
  intros H. change 255 with (Z.ones 8).
  rewrite Z.land_ones by lia. change (2 ^ 8) with 256. apply Z.mod_small. lia.
Qed.

Lemma exit_status_range {A : Type} (r : Result A) : 0 <= exit_status r <= 255.
Proof.
  destruct r as [a|code|msg]; simpl; try lia.
  change 255 with (Z.ones 8). rewrite Z.land_ones by lia.
  change (2 ^ 8) with 256. change (Z.ones 8) with 255.
  pose proof (Z.mod_pos_bound code 256 ltac:(lia)). lia.
Qed.

(** A child process that got as far as the command of the user exits with
    the exit code of [Run]'s process state, after printing [Run]'s error. *)
Lemma child_process_status (wc : World) (Hw : rand_ok wc) (exe : string)
  (rest : list string) (err : option error) (st : option os.ProcessState) :
  last_run wc (exe :: "_child" :: rest) err st ->
  command_args rest <> [] /\
  fst (process wc (exe :: "_child" :: rest)) = Exit (os.ExitCode st) /\
  st_stderr (snd (process wc (exe :: "_child" :: rest))) =
    match err with Some msg => [msg] | None => [] end.
Proof.
  intros (e & args & Hlast & Hop & Herr & Hst).
  assert (Hnot : forall ev : Event,
            ev_op ev = MkdirAll containersDir perm_0700 -> Some ev <> Some e).
  { intros ev Hev Heq. injection Heq as ->. rewrite Hev in Hop. discriminate Hop. }
  destruct (ev_err (init_event wc)) as [msg|] eqn:Hinit.
  { rewrite (process_init_fails wc _ msg Hinit) in Hlast. simpl in Hlast.
    exfalso. exact (Hnot (init_event wc) eq_refl Hlast). }
  rewrite (process_init_ok wc _ Hinit) in *.
  change (exe :: "_child" :: rest) with (exe :: role true :: rest) in *.
  rewrite (main_run wc exe true rest) in *.
  destruct (command_args rest) as [|commandName commandArgs] eqn:Hargs.
  { rewrite run_no_args in Hlast. simpl in Hlast.
    exfalso. exact (Hnot (init_event wc) eq_refl Hlast). }
  split; [discriminate|].
  destruct (child_bootstrap wc Hw commandName commandArgs (volume_requests rest)
              (after_init wc)) as (done & Htr & Hcases).
  cbv zeta in Htr, Hcases. rewrite Htr in Hlast.
  destruct Hcases as [(pre & e' & -> & _ & _ & _ & _ & Hcode & Hstderr) | (Hord & _)].
  - simpl in Hlast. rewrite app_comm_cons, last_snoc in Hlast.
    injection Hlast as ->. rewrite Hst in Hcode. rewrite Herr in Hstderr.
    split; [exact Hcode | exact Hstderr].
  - exfalso.
    pose proof (in_strict_order_ops _ _ _ (setup_steps_ops _ _) Hord) as Hops.
    destruct done as [|d done] using rev_ind.
    + simpl in Hlast. exact (Hnot (init_event wc) eq_refl Hlast).
    + simpl in Hlast. rewrite app_comm_cons, last_snoc in Hlast.
      injection Hlast as ->. apply Forall_app in Hops. destruct Hops as [_ Hops].
      inversion Hops as [|? ? He _]; subst. rewrite Hop in He. simpl in He.
      discriminate He.
Qed.

(** The launcher exits with the exit status of its child. *)
Lemma launcher_process_status (wh wc : World) (exe : string) (rest : list string) :
  started_by wh wc ->
  ev_err (init_event wh) = None ->
  snd (Executable wh) = None ->
  command_args rest <> [] ->
  fst (process wh (exe :: "run" :: rest)) =
    Exit (exit_status (fst (process wc (child_argv wh rest)))).
Proof.
  intros Hchild Hinit Hexe Hargs.
  rewrite (process_init_ok wh _ Hinit).
  change (exe :: "run" :: rest) with (exe :: role false :: rest).
  rewrite (main_run wh exe false rest). unfold child_argv.
  destruct (command_args rest) as [|commandName commandArgs]; [contradiction|].
  destruct (Executable wh) as [path oe] eqn:Hpath. simpl in Hexe. subst oe.
  destruct (run_launcher wh commandName commandArgs (volume_requests rest) path
              (after_init wh) Hpath) as (Hcode & _).
  rewrite Hcode, Hchild. reflexivity.
Qed.

Lemma child_argv_eq (wh : World) (rest : list string) :
  child_argv wh rest =
    fst (Executable wh) :: "_child" ::
      (map (fun vol => "-v=" +:+ vol) (volume_requests rest) ++ command_args rest).
Proof. reflexivity. Qed.

Lemma child_argv_command (rest : list string) :
  command_args (map (fun vol => "-v=" +:+ vol) (volume_requests rest) ++ command_args rest)
    = command_args rest.
Proof.
  rewrite command_args_app, command_args_flags.
  apply command_args_id, command_args_no_flag.
Qed.

(** C1, as stated, fails in its last part: when the command cannot be
    started the child exits through [os.Exit(-1)], status 255, and the
    launcher with it; a command that itself exits with code 255 gives the
    same status. *)
Lemma startup_failure_not_distinct :
  let missing := world_with (Some "exec: no such file or directory", None) in
  let exits_255 := world_with (Some "exit status 255", Some (os.Exited 255)) in
  last_run missing (child_argv (hosting missing) ["/bin/sh"])
    (Some "exec: no such file or directory") None /\
  last_run exits_255 (child_argv (hosting exits_255) ["/bin/sh"])
    (Some "exit status 255") (Some (os.Exited 255)) /\
  exit_status (fst (process (hosting missing) ["focker"; "run"; "/bin/sh"])) = 255 /\
  exit_status (fst (process (hosting exits_255) ["focker"; "run"; "/bin/sh"])) = 255.
Proof.
  cbv zeta. split; [|split; [|split]].
  - eexists _, ["/bin/sh"]. vm_compute. repeat split.
  - eexists _, ["/bin/sh"]. vm_compute. repeat split.
  - vm_compute. reflexivity.
  - vm_compute. reflexivity.
Qed.

(** C1, amended.  A launcher whose child is this program: when the child
    got as far as the command of the user and the command exited with
    [code], the child and the launcher both exit with status [code].  When
    the command could not be started, the child prints the error on standard
    error and leaves through [os.Exit(-1)]: the child and the launcher exit
    with status 255, which is not zero (and is also the status for a command
    that exits with code 255). *)
Theorem exit_code_propagation (wh wc : World) (Hw : rand_ok wc)
  (Hchild : started_by wh wc)
  (Hinit : ev_err (init_event wh) = None)
  (Hexe : snd (Executable wh) = None)
  (exe : string) (rest : list string) :
  (forall (err : option error) (code : Z),
     0 <= code <= 255 ->
     last_run wc (child_argv wh rest) err (Some (os.Exited code)) ->
     exit_status (fst (process wc (child_argv wh rest))) = code /\
     exit_status (fst (process wh (exe :: "run" :: rest))) = code) /\
  (forall msg : error,
     last_run wc (child_argv wh rest) (Some msg) None ->
     st_stderr (snd (process wc (child_argv wh rest))) = [msg] /\
     fst (process wc (child_argv wh rest)) = Exit (-1) /\
     exit_status (fst (process wc (child_argv wh rest))) = 255 /\
     exit_status (fst (process wh (exe :: "run" :: rest))) = 255).
Proof.
  split.
  - intros err code Hcode Hrun. rewrite child_argv_eq in Hrun.
    destruct (child_process_status wc Hw _ _ _ _ Hrun) as (Hargs & Hexit & _).
    rewrite child_argv_command in Hargs. rewrite <- child_argv_eq in Hexit.
    rewrite (launcher_process_status wh wc exe rest Hchild Hinit Hexe Hargs).
    rewrite Hexit. simpl. rewrite !(land_255 code Hcode). split; reflexivity.
  - intros msg Hrun. rewrite child_argv_eq in Hrun.
    destruct (child_process_status wc Hw _ _ _ _ Hrun) as (Hargs & Hexit & Hstderr).
    rewrite child_argv_command in Hargs. rewrite <- child_argv_eq in Hexit, Hstderr.
    rewrite (launcher_process_status wh wc exe rest Hchild Hinit Hexe Hargs).
    rewrite Hexit. repeat split. exact Hstderr.
Qed.

Lemma calm_rand_ok_with (r : option error * option os.ProcessState) :
  rand_ok (world_with r).
Proof. exact calm_rand_ok. Qed.

Lemma hosting_started_by (wc : World) : started_by (hosting wc) wc.
Proof. intros tr cmd. reflexivity. Qed.

Lemma exit_code_propagation_witness :
  exit_status
    (fst (process (hosting (world_with (Some "exit status 1", Some (os.Exited 1))))
            ["focker"; "run"; "-v=/host/data:/data"; "/bin/false"])) = 1 /\
  exit_status
    (fst (process (hosting (world_with (None, Some (os.Exited 0))))
            ["focker"; "run"; "/bin/true"])) = 0.
Proof.
  split.
  - refine (proj2 (proj1 (exit_code_propagation
             (hosting (world_with (Some "exit status 1", Some (os.Exited 1))))
             (world_with (Some "exit status 1", Some (os.Exited 1)))
             (calm_rand_ok_with _) (hosting_started_by _) eq_refl eq_refl
             "focker" ["-v=/host/data:/data"; "/bin/false"])
             (Some "exit status 1") 1 ltac:(lia) _)).
    eexists _, ["/bin/false"]. vm_compute. repeat split.
  - refine (proj2 (proj1 (exit_code_propagation
             (hosting (world_with (None, Some (os.Exited 0))))
             (world_with (None, Some (os.Exited 0)))
             (calm_rand_ok_with _) (hosting_started_by _) eq_refl eq_refl
             "focker" ["/bin/true"])
             None 0 ltac:(lia) _)).
    eexists _, ["/bin/true"]. vm_compute. repeat split.
Defined.


(** ** The rest of main.go: [main], [init] and [ps] *)

Lemma eqb_ne (a b : string) : a <> b -> String.eqb a b = false.
Proof. intros H. apply String.eqb_neq, H. Qed.

Lemma main_bad_command (w : World) (exe command : string) (rest : list string)
  (s : State) :
  command <> "run" -> command <> "_child" -> command <> "ps" ->
  main w (exe :: command :: rest) s = log_Fatal "bad command" s.
Proof.
  intros Hrun Hchild Hps.
  unfold main. cbn [length Nat.ltb Nat.leb]. unfold index. cbn [lookup list_lookup].
  unfold bind at 1, ret at 1.
  rewrite (eqb_ne _ _ Hrun), (eqb_ne _ _ Hchild), (eqb_ne _ _ Hps).
  reflexivity.
Qed.

(** X1.  [main] needs a command it knows.  Started with fewer than two
    arguments, or with a command other than [run], [_child] and [ps], the
    process exits with code 1 after one line on standard error, and the only
    operation it has performed is the [MkdirAll] of [init]; when that
    succeeded the line is [a command is required] or [bad command]. *)
Theorem main_rejects_unknown_command (w : World) :
  (forall os_Args : list string,
     (length os_Args < 2)%nat ->
     fst (process w os_Args) = Exit 1 /\
     st_trace (snd (process w os_Args)) = [init_event w] /\
     st_stdout (snd (process w os_Args)) = [] /\
     (ev_err (init_event w) = None ->
      st_stderr (snd (process w os_Args)) = ["a command is required"])) /\
  (forall (exe command : string) (rest : list string),
     command <> "run" -> command <> "_child" -> command <> "ps" ->
     fst (process w (exe :: command :: rest)) = Exit 1 /\
     st_trace (snd (process w (exe :: command :: rest))) = [init_event w] /\
     st_stdout (snd (process w (exe :: command :: rest))) = [] /\
     (ev_err (init_event w) = None ->
      st_stderr (snd (process w (exe :: command :: rest))) = ["bad command"])).
Proof.
  split.
  - intros os_Args Hlen.
    destruct (ev_err (init_event w)) as [e|] eqn:Hinit.
    { rewrite (process_init_fails w _ e Hinit). simpl.
      repeat split. intros H; discriminate H. }
    rewrite (process_init_ok w _ Hinit).
    destruct os_Args as [|exe [|command rest]]; simpl in Hlen; try lia;
      (split; [|split; [|split]]; try reflexivity; intros _; reflexivity).
  - intros exe command rest Hrun Hchild Hps.
    destruct (ev_err (init_event w)) as [e|] eqn:Hinit.
    { rewrite (process_init_fails w _ e Hinit). simpl.
      repeat split. intros H; discriminate H. }
    rewrite (process_init_ok w _ Hinit).
    rewrite (main_bad_command w exe command rest _ Hrun Hchild Hps).
    split; [|split; [|split]]; try reflexivity.
Qed.

Lemma main_rejects_unknown_command_witness :
  fst (process calm ["focker"]) = Exit 1 /\
  st_stderr (snd (process calm ["focker"; "start"; "/bin/sh"])) = ["bad command"].
Proof.
  destruct (main_rejects_unknown_command calm) as [Hfew Hbad]. split.
  - apply (Hfew ["focker"]). simpl. lia.
  - apply (Hbad "focker" "start" ["/bin/sh"]); [discriminate ..| reflexivity].
Defined.

(** X2.  When [init] cannot create the containers directory the process
    ends there, whatever its arguments: it exits with code 1, the line on
    standard error names [init containersDir] and the error, and the failed
    [MkdirAll] is the only operation performed.  No command of [main] is
    looked at. *)
Theorem init_failure_ends_the_process (w : World) (os_Args : list string) (e : error) :
  ev_err (init_event w) = Some e ->
  fst (process w os_Args) = Exit 1 /\
  st_trace (snd (process w os_Args)) = [init_event w] /\
  ev_op (init_event w) = MkdirAll "./containers" 448 /\
  st_stdout (snd (process w os_Args)) = [] /\
  st_stderr (snd (process w os_Args)) = ["init containersDir: " +:+ e].
Proof.
  intros H. rewrite (process_init_fails w os_Args e H). repeat split.
Qed.

Lemma init_failure_ends_the_process_witness :
  fst (process read_only ["focker"; "run"; "-v=/host/data:/data"; "/bin/sh"]) = Exit 1 /\
  st_stderr (snd (process read_only ["focker"; "ps"])) =
    ["init containersDir: mkdir ./containers: read-only file system"].
Proof.
  split.
  - apply (init_failure_ends_the_process read_only
             ["focker"; "run"; "-v=/host/data:/data"; "/bin/sh"]
             "mkdir ./containers: read-only file system"). reflexivity.
  - apply (init_failure_ends_the_process read_only ["focker"; "ps"]
             "mkdir ./containers: read-only file system"). reflexivity.
Defined.

Lemma main_ps (w : World) (exe : string) (rest : list string) :
  main w (exe :: "ps" :: rest) = ps w.
Proof. reflexivity. Qed.

Lemma ps_loop_ok (files : list os.DirEntry) :
  Forall (fun file => snd (os.Info file) = None) files ->
  forall s : State,
    ps_loop files s =
      (Ok tt,
       {| st_trace := st_trace s; st_stdout := st_stdout s ++ ps_lines files;
          st_stderr := st_stderr s; st_rand := st_rand s; st_defers := st_defers s |}).
Proof.
  induction 1 as [|file files Hfile _ IH]; intros s.
  - simpl. unfold ret. rewrite app_nil_r. destruct s; reflexivity.
  - cbn [ps_loop]. unfold bind at 1. rewrite Hfile.
    unfold exitIfError, ret at 1. unfold bind at 1, fmt_Println.
    rewrite IH. simpl. rewrite <- app_assoc. reflexivity.
Qed.

Lemma ps_loop_stops (pre post : list os.DirEntry) (bad : os.DirEntry) (e : error) :
  Forall (fun file => snd (os.Info file) = None) pre ->
  snd (os.Info bad) = Some e ->
  forall s : State,
    ps_loop (pre ++ bad :: post) s =
      (Exit 1,
       {| st_trace := st_trace s; st_stdout := st_stdout s ++ ps_lines pre;
          st_stderr := st_stderr s ++ ["ps(): file.Info(): " +:+ e];
          st_rand := st_rand s; st_defers := st_defers s |}).
Proof.
  intros Hpre Hbad. induction Hpre as [|file files Hfile _ IH]; intros s.
  - cbn [app ps_loop]. unfold bind at 1. rewrite Hbad. simpl.
    rewrite app_nil_r. reflexivity.
  - cbn [app ps_loop]. unfold bind at 1. rewrite Hfile.
    unfold exitIfError, ret at 1. unfold bind at 1, fmt_Println.
    rewrite IH. simpl. rewrite <- app_assoc. reflexivity.
Qed.

Lemma ps_eq (w : World) (s : State) (files : list os.DirEntry) (oe : option error) :
  ReadDir w "./containers" = (files, oe) ->
  ps w s = (exitIfError oe "ps(): os.ReadDir()" ;; ps_loop files) s.
Proof.
  intros Hdir. unfold ps, os_ReadDir, bind at 1, ret at 1.
  change containersDir with "./containers". rewrite Hdir. reflexivity.
Qed.

(** X3.  [ps] lists the containers directory: when the directory can be
    read and every entry inspected, it prints one line per entry, in the
    order of the directory, with the name and the modification time of the
    entry, and returns; it writes nothing to standard error and performs no
    operation on the system.  The arguments after [ps] are ignored. *)
Theorem ps_lists_every_entry (w : World) (exe : string) (rest : list string)
  (files : list os.DirEntry) (s : State) :
  ReadDir w "./containers" = (files, None) ->
  Forall (fun file => snd (os.Info file) = None) files ->
  fst (main w (exe :: "ps" :: rest) s) = Ok tt /\
  st_stdout (snd (main w (exe :: "ps" :: rest) s)) =
    st_stdout s ++
    map (fun file => [VString (os.Name file); VString (fst (os.Info file))]) files /\
  st_stderr (snd (main w (exe :: "ps" :: rest) s)) = st_stderr s /\
  st_trace (snd (main w (exe :: "ps" :: rest) s)) = st_trace s.
Proof.
  intros Hdir Hfiles. rewrite main_ps, (ps_eq w s files None Hdir).
  change ((exitIfError None "ps(): os.ReadDir()" ;; ps_loop files) s)
    with (ps_loop files s).
  rewrite (ps_loop_ok files Hfiles). repeat split.
Qed.

Lemma ps_lists_every_entry_witness :
  st_stdout (snd (main sticky ["focker"; "ps"] init_state)) =
    [[VString "b-aaaaaaaaaaaaaaaa"; VString "Fri Oct 30 10:00:00 UTC 2026"];
     [VString "b-cccccccccccccccc"; VString "Fri Oct 30 12:00:00 UTC 2026"]].
Proof.
  refine (proj1 (proj2 (ps_lists_every_entry sticky "focker" [] _ init_state eq_refl _))).
  repeat constructor.
Defined.

(** X4.  [ps] stops at the first entry that cannot be inspected: the
    entries before it are printed, nothing is printed for it or for the
    entries after it, and the process exits with code 1 after a line that
    names [file.Info()] and the error.  When the directory itself cannot be
    read nothing is printed at all, even if entries came back with the
    error. *)
Theorem ps_stops_at_first_error (w : World) (s : State) :
  (forall (pre post : list os.DirEntry) (bad : os.DirEntry) (e : error),
     ReadDir w "./containers" = (pre ++ bad :: post, None) ->
     Forall (fun file => snd (os.Info file) = None) pre ->
     snd (os.Info bad) = Some e ->
     fst (ps w s) = Exit 1 /\
     st_stdout (snd (ps w s)) =
       st_stdout s ++
       map (fun file => [VString (os.Name file); VString (fst (os.Info file))]) pre /\
     st_stderr (snd (ps w s)) = st_stderr s ++ ["ps(): file.Info(): " +:+ e] /\
     st_trace (snd (ps w s)) = st_trace s) /\
  (forall (files : list os.DirEntry) (e : error),
     ReadDir w "./containers" = (files, Some e) ->
     fst (ps w s) = Exit 1 /\
     st_stdout (snd (ps w s)) = st_stdout s /\
     st_stderr (snd (ps w s)) = st_stderr s ++ ["ps(): os.ReadDir(): " +:+ e] /\
     st_trace (snd (ps w s)) = st_trace s).
Proof.
  split.
  - intros pre post bad e Hdir Hpre Hbad. rewrite (ps_eq w s _ None Hdir).
    change ((exitIfError None "ps(): os.ReadDir()" ;; ps_loop (pre ++ bad :: post)) s)
      with (ps_loop (pre ++ bad :: post) s).
    rewrite (ps_loop_stops pre post bad e Hpre Hbad). repeat split.
  - intros files e Hdir. rewrite (ps_eq w s files (Some e) Hdir). repeat split.
Qed.

Lemma ps_stops_at_first_error_witness :
  st_stdout (snd (ps listing init_state)) =
    [[VString "b-aaaaaaaaaaaaaaaa"; VString "Fri Oct 30 10:00:00 UTC 2026"]] /\
  fst (ps listing init_state) = Exit 1.
Proof.
  destruct (proj1 (ps_stops_at_first_error listing init_state)
              [os.mkDirEntry "b-aaaaaaaaaaaaaaaa" ("Fri Oct 30 10:00:00 UTC 2026", None)]
              [os.mkDirEntry "b-cccccccccccccccc" ("Fri Oct 30 12:00:00 UTC 2026", None)]
              (os.mkDirEntry "b-bbbbbbbbbbbbbbbb" ("", Some "lstat: no such file or directory"))
              "lstat: no such file or directory" eq_refl
              ltac:(repeat constructor) eq_refl) as (Hcode & Hout & _).
  split; [exact Hout | exact Hcode].
Defined.

(** ** [randomString], [unzipRootFsTarball] and the launcher without a path *)

(** X5.  [randomString(length)]: below 1 it returns the empty string and
    draws no number; from 1 up to 65536, lengths for which
    [make([]rune, length)] cannot fail with a length out of range, it
    returns exactly [length] characters, all of [a-zA-Z0-9], draws exactly
    [length] numbers, and touches nothing else. *)
Theorem randomString_any_length (w : World) (Hw : rand_ok w) (length : Z) (s : State) :
  (length < 1 -> randomString w length s = (Ok "", s)) /\
  (1 <= length <= 65536 ->
   exists rs : string,
     fst (randomString w length s) = Ok rs /\
     String.length rs = Z.to_nat length /\
     Forall (fun c => alnum c = true) (String.list_ascii_of_string rs) /\
     rs = String.string_of_list_ascii
            (map (fun k => default Ascii.zero
                             (String.list_ascii_of_string randomStringChars
                                !! Z.to_nat (Intn w k 62)))
               (seq (st_rand s) (Z.to_nat length))) /\
     st_rand (snd (randomString w length s)) = (Z.to_nat length + st_rand s)%nat /\
     st_trace (snd (randomString w length s)) = st_trace s /\
     st_stderr (snd (randomString w length s)) = st_stderr s).
Proof.
  split.
  - intros Hlt. unfold randomString.
    destruct (Z.ltb_spec length 1) as [_|Hge]; [reflexivity | lia].
  - intros [Hge _]. unfold randomString.
    destruct (Z.ltb_spec length 1) as [Hlt|_]; [lia|].
    unfold bind.
    change (randomString_loop w (String.list_ascii_of_string randomStringChars)
              (Z.to_nat length) 0 (replicate (Z.to_nat length) Ascii.zero) s)
      with (randomString_loop w availableRunes (Z.to_nat length)
              (List.length (@nil ascii))
              ([] ++ replicate (Z.to_nat length) Ascii.zero) s).
    rewrite (randomString_loop_spec w Hw (Z.to_nat length) []
               (replicate (Z.to_nat length) Ascii.zero) s (length_replicate _ _)).
    eexists. split; [reflexivity|]. simpl.
    rewrite length_string_of_list_ascii, drawn_length,
      String.list_ascii_of_string_of_list_ascii.
    split; [reflexivity|]. split; [apply drawn_alnum, Hw|]. repeat split.
Qed.

Lemma randomString_any_length_witness :
  randomString calm 0 init_state = (Ok "", init_state) /\
  exists rs : string,
    fst (randomString calm 5 init_state) = Ok rs /\ String.length rs = 5%nat.
Proof.
  split.
  - apply (proj1 (randomString_any_length calm calm_rand_ok 0 init_state)). lia.
  - destruct (proj2 (randomString_any_length calm calm_rand_ok 5 init_state)
                ltac:(lia)) as (rs & Hrs & Hlen & _).
    exists rs. split; [exact Hrs | exact Hlen].
Defined.

(** X6.  [unzipRootFsTarball dest src] makes [dest] (and its parents) with
    mode 0700 and then runs [tar -xzf src -C dest], without standard
    streams.  [tar] is run only after the directory was made; when either
    step fails the process prints a line and exits with code 1, and when
    both succeed the function returns without a word. *)
Theorem unzipRootFsTarball_two_steps (w : World) (dest src : string) (s : State) :
  let steps :=
    [ MkdirAll dest 448;
      Run {| exec.Path := "tar"; exec.Args := ["tar"; "-xzf"; src; "-C"; dest];
             exec.Stdin := None; exec.Stdout := None; exec.Stderr := None;
             exec.SysProcAttr := None |} ] in
  exists done : list Event,
    st_trace (snd (unzipRootFsTarball w dest src s)) = st_trace s ++ done /\
    in_strict_order steps done /\
    ((fst (unzipRootFsTarball w dest src s) = Ok tt /\ all_succeeded steps done /\
      st_stderr (snd (unzipRootFsTarball w dest src s)) = st_stderr s) \/
     (fst (unzipRootFsTarball w dest src s) = Exit 1 /\ stopped_at_failure done /\
      exists line : string,
        st_stderr (snd (unzipRootFsTarball w dest src s)) = st_stderr s ++ [line])).
Proof.
  exact (fatal_steps_in_order w _ _ tt (unzipRootFsTarball_steps w dest src) s).
Qed.

(** X7.  A launcher that cannot find its own executable starts nothing: it
    exits with code 1 after the line [os.Executable(): <error>], and has
    performed no operation. *)
Theorem launcher_needs_its_executable (w : World) (commandName : string)
  (commandArgs volumes : list string) (path : string) (e : error) (s : State) :
  Executable w = (path, Some e) ->
  fst (run w (commandName :: commandArgs) volumes false s) = Exit 1 /\
  st_trace (snd (run w (commandName :: commandArgs) volumes false s)) = st_trace s /\
  st_stderr (snd (run w (commandName :: commandArgs) volumes false s)) =
    st_stderr s ++ ["os.Executable(): " +:+ e] /\
  st_stdout (snd (run w (commandName :: commandArgs) volumes false s)) = st_stdout s.
Proof.
  intros Hexe. unfold run.
  assert (Hbody : run_body w (commandName :: commandArgs) volumes false (set_defers [] s) =
            (Exit 1, snd (to_stderr ("os.Executable(): " +:+ e) (set_defers [] s)))).
  { unfold run_body, os_Executable, bind at 1 2 3. simpl. rewrite Hexe. reflexivity. }
  rewrite (with_defers_Exit w _ s 1); rewrite Hbody; [|reflexivity].
  repeat split.
Qed.

Lemma launcher_needs_its_executable_witness :
  fst (run listing ["/bin/sh"] ["/host/data:/data"] false init_state) = Exit 1 /\
  st_trace (snd (run listing ["/bin/sh"] ["/host/data:/data"] false init_state)) = [].
Proof.
  destruct (launcher_needs_its_executable listing "/bin/sh" [] ["/host/data:/data"]
              _ _ init_state eq_refl) as (Hcode & Htr & _).
  split; [exact Hcode | exact Htr].
Defined.

(** ** The volumes of a child *)

Lemma unmount_loop_cons (w : World) (target : string) (rest : list string) (s : State) :
  unmount_loop w (target :: rest) s =
    unmount_loop w rest
      {| st_trace :=
           st_trace s ++
           [mkEvent (Unmount target 0) (fst (answer w (st_trace s) (Unmount target 0)))
              (snd (answer w (st_trace s) (Unmount target 0)))];
         st_stdout := st_stdout s;
         st_stderr :=
           st_stderr s ++
           match fst (answer w (st_trace s) (Unmount target 0)) with
           | Some e => ["failed to unmount " +:+ target +:+ ": " +:+ e]
           | None => []
           end;
         st_rand := st_rand s; st_defers := st_defers s |}.
Proof.
  cbn [unmount_loop]. unfold syscall_Unmount, call, bind at 1 2, perform, ret at 1.
  cbn [fst snd].
  destruct (fst (answer w (st_trace s) (Unmount target 0))) as [e|].
  - reflexivity.
  - unfold bind at 1, ret at 1. rewrite app_nil_r. reflexivity.
Qed.

(** X8.  The deferred closure of [run], whenever it is run: it unmounts every
    entry of [mountedVolumes] once, in the order of the list, with flags 0.
    A failed unmount does not stop it: it logs one line for each failure,
    goes on with the next entry, and returns. *)
Theorem unmount_closure_goes_through (w : World) (mountedVolumes : list string) (s : State) :
  exists (done : list Event) (lines : list string),
    fst (unmount_loop w mountedVolumes s) = Ok tt /\
    st_trace (snd (unmount_loop w mountedVolumes s)) = st_trace s ++ done /\
    map ev_op done = map (fun target => Unmount target 0) mountedVolumes /\
    st_stderr (snd (unmount_loop w mountedVolumes s)) = st_stderr s ++ lines /\
    length lines = length (List.filter failed done) /\
    st_stdout (snd (unmount_loop w mountedVolumes s)) = st_stdout s.
Proof.
  revert s. induction mountedVolumes as [|target rest IH]; intros s.
  - exists [], []. simpl. rewrite !app_nil_r. repeat split.
  - rewrite unmount_loop_cons.
    match goal with |- context [unmount_loop w rest ?s1] =>
      destruct (IH s1) as (done & lines & Hres & Htr & Hops & Hstderr & Hlen & Hout)
    end.
    cbn [st_trace st_stderr st_stdout] in Htr, Hstderr, Hout.
    exists (mkEvent (Unmount target 0) (fst (answer w (st_trace s) (Unmount target 0)))
              (snd (answer w (st_trace s) (Unmount target 0))) :: done).
    exists (match fst (answer w (st_trace s) (Unmount target 0)) with
            | Some e => ["failed to unmount " +:+ target +:+ ": " +:+ e]
            | None => []
            end ++ lines).
    rewrite Hres, Htr, Hstderr, Hout, <- !app_assoc.
    split; [reflexivity|]. split; [reflexivity|].
    split; [simpl; rewrite Hops; reflexivity|].
    split; [reflexivity|]. split; [|reflexivity].
    cbn [map List.filter]. unfold failed at 1. cbn [ev_err].
    destruct (fst (answer w (st_trace s) (Unmount target 0))); simpl; rewrite Hlen;
      reflexivity.
Qed.

Lemma first_bad_volume (volumes : list string) :
  forallb two_parts volumes = false ->
  exists (pre : list string) (bad : string) (post : list string),
    volumes = pre ++ bad :: post /\
    forallb two_parts pre = true /\
    two_parts bad = false.
Proof.
  induction volumes as [|volume rest IH]; simpl; intros H; [discriminate H|].
  destruct (two_parts volume) eqn:Hv.
  - destruct (IH H) as (pre & bad & post & -> & Hpre & Hbad).
    exists (volume :: pre), bad, post. simpl. rewrite Hv. repeat split; assumption.
  - exists [], volume, rest. repeat split. exact Hv.
Qed.

(** X9.  The volume loop of [run] either goes through or ends the process.
    Its events are exactly the ones that the steps of the volumes, up to the
    first string without two parts, yield in the world when performed one
    after the other up to the first failure.  When the loop goes through,
    every volume string had two parts, the directory of each target was made
    and the source bind-mounted on it, volume after volume, every step with
    success, and [mountedVolumes] holds the second part of every volume
    string, in the order of the volumes.  Otherwise the process has exited
    with code 1 after one line on standard error: right after a failed step,
    or, all steps so far having succeeded, with every volume before the
    first string without two parts mounted and nothing done for that string
    or a later one. *)
Theorem mount_loop_all_or_exit (w : World) (rootfsDir : string) (volumes : list string)
  (s : State) :
  let out := mount_loop w rootfsDir volumes 0 (replicate (length volumes) "") s in
  let steps_of := fun volume =>
    [ MkdirAll (filepath.Join [rootfsDir; volume_target volume]) 448;
      Mount (volume_source volume)
        (filepath.Join [rootfsDir; volume_target volume]) ""
        (Z.lor syscall.MS_BIND syscall.MS_REC) "" ] in
  exists done : list Event,
    st_trace (snd out) = st_trace s ++ done /\
    fst (exec_ops w (st_trace s) (volumes_steps rootfsDir volumes)) = st_trace s ++ done /\
    ((fst out = Ok (map volume_target volumes) /\
      forallb two_parts volumes = true /\
      map ev_op done = flat_map steps_of volumes /\
      Forall succeeded done /\
      st_stderr (snd out) = st_stderr s) \/
     (fst out = Exit 1 /\
      in_strict_order (volumes_steps rootfsDir volumes) done /\
      (exists line : string, st_stderr (snd out) = st_stderr s ++ [line]) /\
      (stopped_at_failure done \/
       exists (pre : list string) (bad : string) (post : list string),
         volumes = pre ++ bad :: post /\
         forallb two_parts pre = true /\
         two_parts bad = false /\
         map ev_op done = flat_map steps_of pre /\
         Forall succeeded done))).
Proof.
  intros out steps_of. subst out.
  pose proof (mount_loop_steps w rootfsDir volumes 0 (replicate (length volumes) "") s)
    as [Htr Hres].
  destruct (exec_ops_spec w (volumes_steps rootfsDir volumes) (st_trace s))
    as (done & Hdone & Hord & Hend).
  exists done. split; [congruence|]. split; [exact Hdone|].
  destruct (snd (exec_ops w (st_trace s) (volumes_steps rootfsDir volumes))).
  - destruct (forallb two_parts volumes) eqn:Hwf.
    + left. destruct Hres as [Hr Herr]. destruct Hend as [Hops Hall].
      rewrite mounted_after_all in Hr.
      rewrite (volumes_steps_all _ _ Hwf) in Hops.
      repeat split; assumption.
    + right. destruct Hres as [Hr Herr]. split; [exact Hr|].
      split; [exact Hord|]. split; [exact Herr|]. right.
      destruct (first_bad_volume volumes Hwf) as (pre & bad & post & Hvol & Hpre & Hbad).
      exists pre, bad, post. split; [exact Hvol|]. split; [exact Hpre|].
      split; [exact Hbad|]. destruct Hend as [Hops Hall].
      rewrite Hvol in Hops.
      rewrite (proj1 (volumes_steps_stop rootfsDir bad pre post Hpre Hbad)) in Hops.
      split; [exact Hops | exact Hall].
  - right. destruct Hres as [Hr Herr]. split; [exact Hr|].
    split; [exact Hord|]. split; [exact Herr|]. left; exact Hend.
Qed.

Lemma mounts_of_volumes_steps (rootfsDir : string) (volumes : list string) :
  (length (List.filter is_mount (volumes_steps rootfsDir volumes)) <= length volumes)%nat.
Proof.
  induction volumes as [|volume rest IH]; simpl; [lia|].
  destruct (two_parts volume); simpl; lia.
Qed.

Lemma mounts_of_setup_steps (id : string) (volumes : list string) :
  (length (List.filter is_mount (setup_steps id volumes)) <= length volumes + 2)%nat /\
  (forallb two_parts volumes = true ->
   length (List.filter is_mount (setup_steps id volumes)) = (length volumes + 2)%nat).
Proof.
  unfold setup_steps. simpl. rewrite List.filter_app, length_app.
  pose proof (mounts_of_volumes_steps ("containers/" +:+ id) volumes) as Hle.
  split.
  - destruct (forallb two_parts volumes); simpl; lia.
  - intros Hwf. rewrite Hwf, (volumes_steps_all _ _ Hwf), mounts_of_volumes. simpl. lia.
Qed.

(** X10.  A child with a command and [n] volumes never mounts more than
    [n + 2] times: the volumes, the root onto itself, and procfs.  When it
    reaches the command of the user it has mounted exactly [n + 2] times;
    and it has never unmounted anything. *)
Theorem child_mount_calls (w : World) (Hw : rand_ok w) (commandName : string)
  (commandArgs volumes : list string) (s : State) :
  exists done : list Event,
    st_trace (snd (run w (commandName :: commandArgs) volumes true s)) =
      st_trace s ++ done /\
    (mount_calls done <= length volumes + 2)%nat /\
    Forall (fun e => is_unmount (ev_op e) = false) done /\
    (forall (pre : list Event) (e : Event),
       done = pre ++ [e] ->
       ev_op e = Run (user_cmd (commandName :: commandArgs)) ->
       mount_calls done = (length volumes + 2)%nat).
Proof.
  destruct (child_bootstrap w Hw commandName commandArgs volumes s)
    as (done & Htr & Hcases).
  cbv zeta in Htr, Hcases.
  exists done. split; [exact Htr|].
  pose proof (mounts_of_setup_steps (container_id w (st_rand s)) volumes) as [Hle Heq].
  pose proof (setup_steps_ops (container_id w (st_rand s)) volumes) as Hsteps.
  assert (Hun : forall e : Event,
            setup_op (container_id w (st_rand s)) (ev_op e) ->
            is_unmount (ev_op e) = false).
  { intros e He. destruct (ev_op e); try reflexivity. destruct He. }
  destruct Hcases as [(pre & e & -> & Hall & Hwf & Hop & _) | (Hord & _ & Hcode & _)].
  - assert (Hcount : mount_calls (pre ++ [e]) = (length volumes + 2)%nat).
    { unfold mount_calls. rewrite map_app, List.filter_app, length_app.
      destruct Hall as [Hops _]. rewrite Hops, (Heq Hwf). simpl. rewrite Hop. simpl. lia. }
    split; [lia|]. split.
    + apply Forall_app. split.
      * eapply Forall_impl; [exact (all_succeeded_ops _ _ _ Hsteps Hall)|]. exact Hun.
      * constructor; [rewrite Hop; reflexivity | constructor].
    + intros _ _ _ _. exact Hcount.
  - split; [|split].
    + unfold mount_calls. destruct Hord as [Hprefix _].
      etransitivity; [exact (filter_prefix_length is_mount _ _ Hprefix) | exact Hle].
    + eapply Forall_impl; [exact (in_strict_order_ops _ _ _ Hsteps Hord)|]. exact Hun.
    + intros pre e -> Hop. exfalso.
      pose proof (in_strict_order_ops _ _ _ Hsteps Hord) as Hops.
      apply Forall_app in Hops. destruct Hops as [_ Hops].
      inversion Hops as [|? ? He _]; subst. rewrite Hop in He. simpl in He.
      discriminate He.
Qed.

Lemma child_mount_calls_witness :
  exists done : list Event,
    st_trace (snd (run calm ["/bin/true"] ["/a:/b"; "/c:/d"] true init_state)) =
      st_trace init_state ++ done /\
    mount_calls done = 4%nat.
Proof.
  destruct (child_mount_calls calm calm_rand_ok "/bin/true" [] ["/a:/b"; "/c:/d"]
              init_state) as (done & Htr & _ & _ & Hcount).
  exists done. split; [exact Htr|].
  assert (Hdone : done =
            removelast done ++
            [mkEvent (Run (user_cmd ["/bin/true"])) None (Some (os.Exited 0))]).
  { assert (Hd : done =
              st_trace (snd (run calm ["/bin/true"] ["/a:/b"; "/c:/d"] true init_state)))
      by (rewrite Htr; reflexivity).
    rewrite Hd. vm_compute. reflexivity. }
  exact (Hcount _ _ Hdone eq_refl).
Defined.

(** ** Volume strings *)

Lemma append_cons (c : ascii) (a b : string) : String c a +:+ b = String c (a +:+ b).
Proof. reflexivity. Qed.

Lemma append_assoc (a b c : string) : (a +:+ b) +:+ c = a +:+ b +:+ c.
Proof.
  induction a as [|x a IH]; [reflexivity|].
  rewrite !append_cons, IH. reflexivity.
Qed.

Lemma prefix_colon (c : ascii) (r : string) :
  String.prefix ":" (String c r) = Ascii.eqb c ":".
Proof.
  cbn [String.prefix]. destruct (ascii_dec ":" c) as [<-|Hne].
  - destruct r; reflexivity.
  - symmetry. apply Ascii.eqb_neq. intros ->. contradiction.
Qed.

Lemma genSplit_colon_cons (c : ascii) (r : string) :
  strings.genSplit ":" 0 (String c r) =
    if Ascii.eqb c ":" then "" :: strings.genSplit ":" 0 r
    else match strings.genSplit ":" 0 r with
         | piece :: pieces => String c piece :: pieces
         | [] => [String c ""]
         end.
Proof. cbn [strings.genSplit]. rewrite prefix_colon. reflexivity. Qed.

Lemma genSplit_colon_length (s : string) :
  length (strings.genSplit ":" 0 s) = S (colons s).
Proof.
  induction s as [|c r IH]; [reflexivity|].
  rewrite genSplit_colon_cons. cbn [colons].
  destruct (Ascii.eqb c ":").
  - simpl. rewrite IH. reflexivity.
  - destruct (strings.genSplit ":" 0 r) as [|piece pieces]; [discriminate IH|].
    simpl in *. exact IH.
Qed.

(** X11.  The check of [run] on a volume string accepts exactly the strings
    with one colon: a string without a colon, or with two or more, ends the
    child with [invalid volume mapping]; nothing else about the string is
    checked. *)
Theorem two_parts_iff_one_colon (volume : string) :
  (length (strings.Split volume ":") =? 2)%nat = true <-> colons volume = 1%nat.
Proof.
  unfold strings.Split. rewrite genSplit_colon_length.
  rewrite Nat.eqb_eq. lia.
Qed.

Lemma genSplit_no_colon (s : string) :
  colons s = O -> strings.genSplit ":" 0 s = [s].
Proof.
  induction s as [|c r IH]; intros H; [reflexivity|].
  rewrite genSplit_colon_cons. cbn [colons] in H.
  destruct (Ascii.eqb c ":"); [discriminate H|].
  rewrite (IH H). reflexivity.
Qed.

Lemma genSplit_colon_pair (source target : string) :
  colons source = O -> colons target = O ->
  strings.genSplit ":" 0 (source +:+ ":" +:+ target) = [source; target].
Proof.
  intros Hs Ht. induction source as [|c r IH].
  - change ("" +:+ ":" +:+ target) with (String ":" target).
    rewrite genSplit_colon_cons, (genSplit_no_colon target Ht). reflexivity.
  - rewrite append_cons, genSplit_colon_cons. cbn [colons] in Hs.
    destruct (Ascii.eqb c ":"); [discriminate Hs|].
    rewrite (IH Hs). reflexivity.
Qed.

Lemma volume_pair_parts (source target : string) :
  colons source = O -> colons target = O ->
  two_parts (source +:+ ":" +:+ target) = true /\
  volume_source (source +:+ ":" +:+ target) = source /\
  volume_target (source +:+ ":" +:+ target) = target.
Proof.
  intros Hs Ht. unfold two_parts, volume_source, volume_target, strings.Split.
  rewrite (genSplit_colon_pair source target Hs Ht). repeat split.
Qed.

Lemma volume_pairs_steps (rootfsDir : string) (pairs : list (string * string)) :
  Forall (fun p => colons (fst p) = O /\ colons (snd p) = O) pairs ->
  forallb two_parts (map (fun p => fst p +:+ ":" +:+ snd p) pairs) = true /\
  volumes_steps rootfsDir (map (fun p => fst p +:+ ":" +:+ snd p) pairs) =
    flat_map
      (fun p =>
         [ MkdirAll (filepath.Join [rootfsDir; snd p]) 448;
           Mount (fst p) (filepath.Join [rootfsDir; snd p]) "" (Z.lor 4096 16384) "" ])
      pairs /\
  map volume_target (map (fun p => fst p +:+ ":" +:+ snd p) pairs) = map snd pairs.
Proof.
  induction 1 as [|p pairs [Hs Ht] _ (IH1 & IH2 & IH3)]; [repeat split|].
  destruct (volume_pair_parts (fst p) (snd p) Hs Ht) as (Htwo & Hsrc & Htgt).
  cbn [map forallb volumes_steps flat_map]. rewrite Htwo, IH1, IH2, IH3.
  unfold volume_steps. rewrite Hsrc, Htgt. repeat split.
Qed.

(** X12.  Volume strings [source:target] whose parts have no colon are
    taken apart into exactly these parts (empty parts as they are).  For a
    list of such strings the volume loop of [run] performs, for each string
    in order, [MkdirAll(filepath.Join(rootfsDir, target), 0700)] and the
    recursive bind mount of [source] on that path, exactly as the world
    answers them and up to the first failure; when all succeed it returns
    with the targets themselves, not the joined paths, in [mountedVolumes],
    and when one fails the process exits with code 1. *)
Theorem volume_string_parts (w : World) (rootfsDir : string)
  (pairs : list (string * string)) (s : State) :
  Forall (fun p => colons (fst p) = O /\ colons (snd p) = O) pairs ->
  let volumes := map (fun p => fst p +:+ ":" +:+ snd p) pairs in
  let steps :=
    flat_map
      (fun p =>
         [ MkdirAll (filepath.Join [rootfsDir; snd p]) 448;
           Mount (fst p) (filepath.Join [rootfsDir; snd p]) "" (Z.lor 4096 16384) "" ])
      pairs in
  let out := mount_loop w rootfsDir volumes 0 (replicate (length volumes) "") s in
  Forall (fun p => strings.Split (fst p +:+ ":" +:+ snd p) ":" = [fst p; snd p]) pairs /\
  st_trace (snd out) = fst (exec_ops w (st_trace s) steps) /\
  (exists done : list Event,
     st_trace (snd out) = st_trace s ++ done /\ in_strict_order steps done) /\
  if snd (exec_ops w (st_trace s) steps)
  then fst out = Ok (map snd pairs) /\ st_stderr (snd out) = st_stderr s
  else fst out = Exit 1.
Proof.
  intros Hpairs volumes steps out.
  destruct (volume_pairs_steps rootfsDir pairs Hpairs) as (Hwf & Hsteps & Htargets).
  fold volumes steps in Hwf, Hsteps, Htargets.
  pose proof (mount_loop_steps w rootfsDir volumes 0 (replicate (length volumes) "") s)
    as [Htr Hres].
  fold out in Htr, Hres.
  rewrite Hsteps in Htr, Hres. rewrite Hwf, mounted_after_all, Htargets in Hres.
  split.
  { eapply Forall_impl; [exact Hpairs|]. intros p [Hs Ht]. unfold strings.Split.
    apply genSplit_colon_pair; assumption. }
  split; [exact Htr|]. split.
  { destruct (exec_ops_spec w steps (st_trace s)) as (done & Hdone & Hord & _).
    exists done. split; [congruence | exact Hord]. }
  destruct (snd (exec_ops w (st_trace s) steps)).
  - exact Hres.
  - exact (proj1 Hres).
Qed.

Lemma volume_string_parts_witness :
  fst (mount_loop calm "containers/b-x" ["/host/data:/data"; ":"] 0 [""; ""] init_state) =
    Ok ["/data"; ""].
Proof.
  pose proof (volume_string_parts calm "containers/b-x" [("/host/data", "/data"); ("", "")]
                init_state ltac:(repeat constructor)) as H.
  cbv zeta in H. destruct H as (_ & _ & _ & H).
  exact (proj1 H).
Defined.

(** ** Where a volume is mounted *)

Lemma genSplit_slash_app (a b : string) :
  no_slash a ->
  strings.genSplit "/" 0 (a +:+ String "/" b) = a :: strings.genSplit "/" 0 b.
Proof.
  unfold no_slash. induction a as [|c r IH]; intros H.
  - change ("" +:+ String "/" b) with (String "/" b).
    cbn [strings.genSplit String.prefix]. destruct (ascii_dec "/" "/") as [_|Hne];
      [|contradiction].
    destruct b; reflexivity.
  - cbn [String.list_ascii_of_string] in H. inversion H as [|? ? Hc Hr]; subst.
    rewrite append_cons. cbn [strings.genSplit].
    rewrite (prefix_slash c _ Hc), (IH Hr). reflexivity.
Qed.

Lemma genSplit_rootfs (id target : string) :
  no_slash id ->
  strings.genSplit "/" 0 (("containers/" +:+ id) +:+ "/" +:+ target) =
    "containers" :: id :: strings.genSplit "/" 0 target.
Proof.
  intros Hid.
  change (("containers/" +:+ id) +:+ "/" +:+ target)
    with (("containers" +:+ String "/" id) +:+ String "/" target).
  rewrite append_assoc.
  change (String "/" id +:+ String "/" target) with (String "/" (id +:+ String "/" target)).
  rewrite genSplit_slash_app by (repeat constructor; discriminate).
  rewrite genSplit_slash_app by exact Hid.
  reflexivity.
Qed.

Lemma clean_elem_plain (rooted : bool) (out : list string) (name : string) :
  plain_name name -> filepath.clean_elem rooted out name = name :: out.
Proof.
  intros (Hne & _ & Hdot & Hdots). unfold filepath.clean_elem.
  rewrite (eqb_ne _ _ Hne), (eqb_ne _ _ Hdot), (eqb_ne _ _ Hdots). reflexivity.
Qed.

Lemma identity_plain (id : string) : is_identity id -> plain_name id.
Proof.
  intros (rs & -> & _ & Hrs). apply alnum_no_slash in Hrs.
  split; [discriminate|]. split; [|split; discriminate].
  unfold no_slash in *.
  change (String.list_ascii_of_string ("b-" +:+ rs))
    with ("b"%char :: "-"%char :: String.list_ascii_of_string rs).
  repeat (constructor; [discriminate|]). exact Hrs.
Qed.

Lemma Join_rootfs (id target : string) :
  filepath.Join ["containers/" +:+ id; target] =
    let out :=
      rev (fold_left (filepath.clean_elem false)
             (strings.Split (("containers/" +:+ id) +:+ "/" +:+ target) "/") []) in
    match out with
    | [] => "."
    | _ => strings.Join out "/"
    end.
Proof. reflexivity. Qed.

Lemma volumes_steps_mount_point (id source name : string) :
  is_identity id -> plain_name name -> colons source = O -> colons name = O ->
  volumes_steps ("containers/" +:+ id) [source +:+ ":" +:+ "/" +:+ name] =
    [ MkdirAll ("containers/" +:+ id +:+ "/" +:+ name) 448;
      Mount source ("containers/" +:+ id +:+ "/" +:+ name) "" (Z.lor 4096 16384) "" ] /\
  volumes_steps ("containers/" +:+ id) [source +:+ ":" +:+ name] =
    [ MkdirAll ("containers/" +:+ id +:+ "/" +:+ name) 448;
      Mount source ("containers/" +:+ id +:+ "/" +:+ name) "" (Z.lor 4096 16384) "" ] /\
  volumes_steps ("containers/" +:+ id) [source +:+ ":" +:+ "../../" +:+ name] =
    [ MkdirAll name 448; Mount source name "" (Z.lor 4096 16384) "" ].
Proof.
  intros Hid Hname Hsource Hcolons.
  pose proof (identity_plain id Hid) as Hidp.
  assert (Hslash : no_slash id) by apply Hidp.
  assert (Hn : strings.genSplit "/" 0 name = [name])
    by (apply genSplit_no_slash, Hname).
  assert (Hin : filepath.Join ["containers/" +:+ id; "/" +:+ name] =
                "containers/" +:+ id +:+ "/" +:+ name).
  { rewrite Join_rootfs. cbv zeta. unfold strings.Split.
    rewrite (genSplit_rootfs id ("/" +:+ name) Hslash).
    change ("/" +:+ name) with ("" +:+ String "/" name).
    rewrite genSplit_slash_app by constructor. rewrite Hn.
    cbn [fold_left]. change (filepath.clean_elem false [] "containers") with ["containers"].
    rewrite (clean_elem_plain false _ id Hidp).
    change (filepath.clean_elem false [id; "containers"] "") with [id; "containers"].
    rewrite (clean_elem_plain false _ name Hname). reflexivity. }
  assert (Hrel : filepath.Join ["containers/" +:+ id; name] =
                 "containers/" +:+ id +:+ "/" +:+ name).
  { rewrite Join_rootfs. cbv zeta. unfold strings.Split.
    rewrite (genSplit_rootfs id name Hslash), Hn.
    cbn [fold_left]. change (filepath.clean_elem false [] "containers") with ["containers"].
    rewrite (clean_elem_plain false _ id Hidp), (clean_elem_plain false _ name Hname).
    reflexivity. }
  assert (Hout : filepath.Join ["containers/" +:+ id; "../../" +:+ name] = name).
  { rewrite Join_rootfs. cbv zeta. unfold strings.Split.
    rewrite (genSplit_rootfs id ("../../" +:+ name) Hslash).
    change ("../../" +:+ name) with (".." +:+ String "/" (".." +:+ String "/" name)).
    rewrite !genSplit_slash_app by (repeat constructor; discriminate). rewrite Hn.
    cbn [fold_left]. change (filepath.clean_elem false [] "containers") with ["containers"].
    rewrite (clean_elem_plain false _ id Hidp).
    assert (Hpop1 : filepath.clean_elem false [id; "containers"] ".." = ["containers"]).
    { unfold filepath.clean_elem. simpl (String.eqb ".." _).
      destruct Hidp as (_ & _ & _ & Hdots). rewrite (eqb_ne _ _ Hdots). reflexivity. }
    rewrite Hpop1.
    change (filepath.clean_elem false ["containers"] "..") with (@nil string).
    rewrite (clean_elem_plain false _ name Hname). reflexivity. }
  assert (Hc1 : colons ("/" +:+ name) = O) by exact Hcolons.
  assert (Hc2 : colons ("../../" +:+ name) = O) by exact Hcolons.
  unfold volumes_steps, volume_steps, two_parts, volume_source, volume_target,
    strings.Split.
  rewrite (genSplit_colon_pair source ("/" +:+ name) Hsource Hc1).
  rewrite (genSplit_colon_pair source name Hsource Hcolons).
  rewrite (genSplit_colon_pair source ("../../" +:+ name) Hsource Hc2).
  simpl. rewrite Hin, Hrel, Hout. repeat split.
Qed.

(** X13.  The mount point of a volume is the lexical join of the root
    filesystem of the container and the second part of the volume string,
    and [run] takes whatever that gives.  A child with the one volume
    [source:target] performs, exactly as the world answers them: hostname,
    root filesystem, [MkdirAll(point, 0700)], the bind mount of [source] on
    [point], root switch, procfs, and then the command.  For the target
    [/name] or [name], [point] is [containers/<id>/name], inside the root
    filesystem; for the target [../../name], [point] is [name], a path of
    the host outside the root filesystem, which the child makes and mounts
    like any other. *)
Theorem volume_mount_points (w : World) (Hw : rand_ok w) (commandName : string)
  (commandArgs : list string) (source name target point : string) (s : State) :
  plain_name name -> colons source = O -> colons name = O ->
  let id := container_id w (st_rand s) in
  (target = "/" +:+ name /\ point = "containers/" +:+ id +:+ "/" +:+ name) \/
  (target = name /\ point = "containers/" +:+ id +:+ "/" +:+ name) \/
  (target = "../../" +:+ name /\ point = name) ->
  let steps :=
    [ Sethostname id;
      MkdirAll ("containers/" +:+ id) 448;
      Run (exec.Command "tar" ["-xzf"; rootFsTarball; "-C"; "containers/" +:+ id]);
      MkdirAll point 448;
      Mount source point "" (Z.lor 4096 16384) "" ] ++
    root_switch_steps ("containers/" +:+ id) ++
    [Mount "proc" "/proc" "proc" 0 ""] in
  let out := run w (commandName :: commandArgs) [source +:+ ":" +:+ target] true s in
  exists pre : list Event,
    fst (exec_ops w (st_trace s) steps) = st_trace s ++ pre /\
    in_strict_order steps pre /\
    ((all_succeeded steps pre /\
      exists e : Event,
        st_trace (snd out) = st_trace s ++ pre ++ [e] /\
        ev_op e = Run (user_cmd (commandName :: commandArgs)) /\
        fst out = Exit (os.ExitCode (ev_state e))) \/
     (stopped_at_failure pre /\
      st_trace (snd out) = st_trace s ++ pre /\
      fst out = Exit 1)).
Proof.
  intros Hname Hsource Hcolons id Hshape steps out.
  pose proof (container_id_is_identity w Hw (st_rand s)) as Hid. fold id in Hid.
  destruct (volumes_steps_mount_point id source name Hid Hname Hsource Hcolons)
    as (Habs & Hrel & Hesc).
  assert (Htwo : two_parts (source +:+ ":" +:+ target) = true).
  { destruct Hshape as [[-> _] | [[-> _] | [-> _]]];
      apply (volume_pair_parts source _ Hsource); exact Hcolons. }
  assert (Hsteps : setup_steps id [source +:+ ":" +:+ target] = steps).
  { unfold setup_steps. cbn [forallb]. rewrite Htwo. cbn [andb].
    destruct Hshape as [[-> ->] | [[-> ->] | [-> ->]]];
      [rewrite Habs | rewrite Hrel | rewrite Hesc]; reflexivity. }
  destruct (child_exact w Hw commandName commandArgs [source +:+ ":" +:+ target] s)
    as (pre & Htie & Hord & Hcases).
  cbv zeta in Htie, Hord, Hcases. fold id out in Htie, Hord, Hcases.
  rewrite Hsteps in Htie, Hord, Hcases.
  exists pre. split; [exact Htie|]. split; [exact Hord|].
  destruct Hcases as [(_ & Hall & e & Htr & Hop & _ & Hcode & _)
                     | ([Hstop | [Hwf _]] & Htr & Hcode & _)].
  - left. split; [exact Hall|]. exists e. repeat split; assumption.
  - right. repeat split; assumption.
  - cbn [forallb] in Hwf. rewrite Htwo in Hwf. discriminate Hwf.
Qed.

Lemma volume_mount_points_witness :
  exists pre : list Event,
    st_trace (snd (run calm ["/bin/sh"] ["/host/data" +:+ ":" +:+ "../../" +:+ "etc"]
                     true init_state)) =
      st_trace init_state ++ pre ++
      [mkEvent (Run (user_cmd ["/bin/sh"])) None (Some (os.Exited 0))] /\
    map ev_op (List.filter (fun e => is_mount (ev_op e)) pre) =
      [ Mount "/host/data" "etc" "" (Z.lor 4096 16384) "";
        Mount "containers/b-dkryFMT07elszGNU" "containers/b-dkryFMT07elszGNU" ""
          (Z.lor 4096 16384) "";
        Mount "proc" "/proc" "proc" 0 "" ].
Proof.
  destruct (volume_mount_points calm calm_rand_ok "/bin/sh" [] "/host/data" "etc"
              ("../../" +:+ "etc") "etc" init_state)
    as (pre & Htie & _ & Hcases).
  - split; [discriminate|]. split; [repeat constructor; discriminate|].
    split; discriminate.
  - reflexivity.
  - reflexivity.
  - right. right. split; reflexivity.
  - exists pre. vm_compute in Htie. subst pre. vm_compute. split; reflexivity.
Defined.

Example escaping_volume_is_mounted :
  List.filter is_mount
    (map ev_op
       (st_trace (snd (run calm ["/bin/sh"] ["/host/data:../../etc"] true init_state)))) =
  [ Mount "/host/data" "etc" "" (Z.lor 4096 16384) "";
    Mount "containers/b-dkryFMT07elszGNU" "containers/b-dkryFMT07elszGNU" ""
      (Z.lor 4096 16384) "";
    Mount "proc" "/proc" "proc" 0 "" ].
Proof. vm_compute. reflexivity. Qed.

(** ** The launcher and its child *)

(** X14.  A launcher with a command and a path to its executable performs
    one operation after [init]: it runs itself with the [_child] command.
    It then exits with the exit status of that child, whatever the child
    did: the status of a failed bootstrap (1) and of a panic (2) are passed
    on like the exit code of the command of the user. *)
Theorem launcher_relays_child_status (wh wc : World) (exe : string) (rest : list string) :
  started_by wh wc ->
  ev_err (init_event wh) = None ->
  snd (Executable wh) = None ->
  command_args rest <> [] ->
  exit_status (fst (process wh (exe :: "run" :: rest))) =
    exit_status (fst (process wc (child_argv wh rest))) /\
  map ev_op (st_trace (snd (process wh (exe :: "run" :: rest)))) =
    [ MkdirAll "./containers" 448;
      Run (reexec_cmd (fst (Executable wh)) (volume_requests rest) (command_args rest)) ].
Proof.
  intros Hchild Hinit Hexe Hargs. split.
  - rewrite (launcher_process_status wh wc exe rest Hchild Hinit Hexe Hargs).
    simpl. apply land_255, exit_status_range.
  - rewrite (process_init_ok wh _ Hinit).
    change (exe :: "run" :: rest) with (exe :: role false :: rest).
    rewrite (main_run wh exe false rest).
    destruct (command_args rest) as [|commandName commandArgs]; [contradiction|].
    destruct (Executable wh) as [path oe] eqn:Hpath. simpl in Hexe. subst oe.
    destruct (run_launcher wh commandName commandArgs (volume_requests rest) path
                (after_init wh) Hpath) as (_ & Htr & _).
    rewrite Htr. reflexivity.
Qed.

Lemma launcher_relays_child_status_witness :
  exit_status
    (fst (process (hosting calm) ["focker"; "run"; "-v=nocolon"; "/bin/sh"])) =
  exit_status
    (fst (process calm (child_argv (hosting calm) ["-v=nocolon"; "/bin/sh"]))).
Proof.
  refine (proj1 (launcher_relays_child_status (hosting calm) calm "focker"
                   ["-v=nocolon"; "/bin/sh"] (hosting_started_by calm) eq_refl eq_refl _)).
  discriminate.
Defined.

Example failed_bootstrap_is_status_1 :
  exit_status (fst (process (hosting calm) ["focker"; "run"; "-v=nocolon"; "/bin/sh"])) = 1.
Proof. vm_compute. reflexivity. Qed.

(** X15.  When the command of the user is ended by a signal, [ExitCode()]
    is -1 and the child leaves through [os.Exit(-1)]: the child exits with
    status 255, and the launcher with it, after [Run]'s error was printed on
    the standard error of the child. *)
Theorem signalled_command_is_status_255 (wh wc : World) (Hw : rand_ok wc)
  (Hchild : started_by wh wc)
  (Hinit : ev_err (init_event wh) = None)
  (Hexe : snd (Executable wh) = None)
  (exe : string) (rest : list string) (msg : error) (sig : Z) :
  last_run wc (child_argv wh rest) (Some msg) (Some (os.Signaled sig)) ->
  fst (process wc (child_argv wh rest)) = Exit (-1) /\
  st_stderr (snd (process wc (child_argv wh rest))) = [msg] /\
  exit_status (fst (process wc (child_argv wh rest))) = 255 /\
  exit_status (fst (process wh (exe :: "run" :: rest))) = 255.
Proof.
  intros Hrun. rewrite child_argv_eq in Hrun.
  destruct (child_process_status wc Hw _ _ _ _ Hrun) as (Hargs & Hexit & Hstderr).
  rewrite child_argv_command in Hargs. rewrite <- child_argv_eq in Hexit, Hstderr.
  rewrite (launcher_process_status wh wc exe rest Hchild Hinit Hexe Hargs).
  rewrite Hexit. repeat split. exact Hstderr.
Qed.

Lemma signalled_command_is_status_255_witness :
  exit_status
    (fst (process (hosting (world_with (Some "signal: killed", Some (os.Signaled 9))))
            ["focker"; "run"; "/bin/sleep"; "60"])) = 255.
Proof.
  refine (proj2 (proj2 (proj2 (signalled_command_is_status_255
             (hosting (world_with (Some "signal: killed", Some (os.Signaled 9))))
             (world_with (Some "signal: killed", Some (os.Signaled 9)))
             (calm_rand_ok_with _) (hosting_started_by _) eq_refl eq_refl
             "focker" ["/bin/sleep"; "60"] "signal: killed" 9 _)))).
  eexists _, ["/bin/sleep"; "60"]. vm_compute. repeat split.
Defined.

(** ** What a child prints *)

Lemma quiet_ret {A : Type} (v : A) : quiet (ret v).
Proof. intros s. reflexivity. Qed.

Lemma quiet_bind {A B : Type} (m : M A) (k : A -> M B) :
  quiet m -> (forall a : A, quiet (k a)) -> quiet (bind m k).
Proof.
  intros Hm Hk s. unfold bind. specialize (Hm s).
  destruct (m s) as [[a|code|msg] s1]; simpl in Hm; try exact Hm.
  rewrite (Hk a s1). exact Hm.
Qed.

Lemma quiet_log_Fatal {A : Type} (line : string) : quiet (log_Fatal (A := A) line).
Proof. intros s. reflexivity. Qed.

Lemma quiet_exitIfError (err : option error) (label : string) :
  quiet (exitIfError err label).
Proof.
  intros s. unfold exitIfError.
  destruct err; [destruct (0 <? String.length label)%nat|]; reflexivity.
Qed.

Lemma quiet_perform (w : World) (op : Op) : quiet (perform w op).
Proof. intros s. reflexivity. Qed.

Lemma quiet_call (w : World) (op : Op) : quiet (call w op).
Proof. intros s. reflexivity. Qed.

Lemma quiet_defer (d : Deferred) : quiet (defer d).
Proof. intros s. reflexivity. Qed.

Lemma quiet_index {A : Type} (l : list A) (i : nat) : quiet (index l i).
Proof. intros s. unfold index. destruct (l !! i); reflexivity. Qed.

Lemma quiet_rand_Intn (w : World) (n : Z) : quiet (rand_Intn w n).
Proof. intros s. unfold rand_Intn. destruct (n <=? 0)%Z; reflexivity. Qed.

Lemma quiet_randomString (w : World) (length : Z) : quiet (randomString w length).
Proof.
  unfold randomString. destruct (length <? 1)%Z; [apply quiet_ret|].
  apply quiet_bind; [|intros r; apply quiet_ret].
  generalize (replicate (Z.to_nat length) Ascii.zero). generalize O.
  induction (Z.to_nat length) as [|todo IH]; intros i r; [apply quiet_ret|].
  cbn [randomString_loop].
  apply quiet_bind; [apply quiet_rand_Intn|]. intros n.
  apply quiet_bind; [apply quiet_index|]. intros c. apply IH.
Qed.

Lemma quiet_unzipRootFsTarball (w : World) (dest src : string) :
  quiet (unzipRootFsTarball w dest src).
Proof.
  unfold unzipRootFsTarball.
  apply quiet_bind; [apply quiet_call|]. intros err.
  apply quiet_bind; [apply quiet_exitIfError|]. intros _.
  apply quiet_bind; [apply quiet_perform|]. intros a. apply quiet_exitIfError.
Qed.

Lemma quiet_pivotRoot (w : World) (newRoot : string) : quiet (pivotRoot w newRoot).
Proof.
  unfold pivotRoot.
  repeat (apply quiet_bind; [first [apply quiet_call | apply quiet_exitIfError]|];
          intros ?).
  apply quiet_exitIfError.
Qed.

Lemma quiet_mount_loop (w : World) (rootfsDir : string) (volumes : list string) :
  forall (i : nat) (mountedVolumes : list string),
    quiet (mount_loop w rootfsDir volumes i mountedVolumes).
Proof.
  induction volumes as [|volume rest IH]; intros i mountedVolumes;
    [apply quiet_ret|].
  cbn [mount_loop].
  apply quiet_bind.
  { destruct (negb _); [apply quiet_log_Fatal | apply quiet_ret]. }
  intros _.
  apply quiet_bind; [apply quiet_index|]. intros source.
  apply quiet_bind; [apply quiet_index|]. intros part1.
  apply quiet_bind; [apply quiet_call|]. intros err.
  apply quiet_bind; [apply quiet_exitIfError|]. intros _.
  apply quiet_bind; [apply quiet_call|]. intros err'.
  apply quiet_bind; [apply quiet_exitIfError|]. intros _.
  apply IH.
Qed.

Lemma quiet_run_tail (w : World) (cmd : exec.Cmd) : quiet (run_tail w cmd).
Proof.
  unfold run_tail.
  apply quiet_bind; [apply quiet_perform|]. intros a.
  apply quiet_bind; [destruct (fst a); [intros s; reflexivity | apply quiet_ret]|].
  intros _ s. reflexivity.
Qed.

Lemma prints_on_return_bind {A B : Type} (line : list Value) (m : M A) (k : A -> M B) :
  quiet m -> (forall a : A, prints_on_return line (k a)) ->
  prints_on_return line (bind m k).
Proof.
  intros Hm Hk s. unfold bind. specialize (Hm s).
  destruct (m s) as [[a|code|msg] s1]; simpl in Hm; try exact Hm.
  rewrite (Hk a s1), Hm. reflexivity.
Qed.

Lemma prints_on_return_Getpid {B : Type} (w : World) (line : list Value) (k : Z -> M B) :
  prints_on_return line (k (Getpid w)) ->
  prints_on_return line (bind (os_Getpid w) k).
Proof. intros Hk s. exact (Hk s). Qed.

Lemma prints_on_return_run_isChild (w : World) (volumes : list string)
  (commandName : string) (cmd : exec.Cmd) :
  prints_on_return
    [VString "pid"; VInt (Getpid w); VString "running"; VString commandName]
    (run_isChild w volumes commandName cmd).
Proof.
  unfold run_isChild.
  apply prints_on_return_bind; [apply quiet_randomString|]. intros rs.
  apply prints_on_return_bind; [apply quiet_call|]. intros err.
  apply prints_on_return_bind; [apply quiet_exitIfError|]. intros _.
  apply prints_on_return_bind; [apply quiet_unzipRootFsTarball|]. intros _.
  apply prints_on_return_bind; [apply quiet_mount_loop|]. intros mountedVolumes.
  apply prints_on_return_bind; [apply quiet_defer|]. intros _.
  apply prints_on_return_bind; [apply quiet_pivotRoot|]. intros _.
  apply prints_on_return_bind; [apply quiet_call|]. intros err'.
  apply prints_on_return_bind; [apply quiet_exitIfError|]. intros _.
  apply prints_on_return_bind; [apply quiet_defer|]. intros _.
  apply prints_on_return_Getpid.
  intros s. reflexivity.
Qed.

Lemma run_child_stdout (w : World) (Hw : rand_ok w) (commandName : string)
  (commandArgs volumes : list string) (s : State) :
  st_stdout (snd (run w (commandName :: commandArgs) volumes true s)) =
    st_stdout s ++
    if snd (exec_ops w (st_trace s) (setup_steps (container_id w (st_rand s)) volumes))
       && forallb two_parts volumes
    then [[VString "pid"; VInt (Getpid w); VString "running"; VString commandName]]
    else [].
Proof.
  pose proof (run_isChild_steps w Hw volumes commandName
                (user_cmd (commandName :: commandArgs)) (set_defers [] s)) as Hsetup.
  cbv zeta in Hsetup.
  change (st_rand (set_defers [] s)) with (st_rand s) in Hsetup.
  change (st_trace (set_defers [] s)) with (st_trace s) in Hsetup.
  destruct Hsetup as [_ Hres].
  pose proof (prints_on_return_run_isChild w volumes commandName
                (user_cmd (commandName :: commandArgs)) (set_defers [] s)) as Hout.
  change (st_stdout (set_defers [] s)) with (st_stdout s) in Hout.
  pose proof (run_body_isChild w commandName commandArgs volumes (set_defers [] s))
    as Hbody.
  unfold bind in Hbody.
  destruct (run_isChild w volumes commandName (user_cmd (commandName :: commandArgs))
              (set_defers [] s)) as [r s1].
  cbn [fst snd] in Hres, Hout.
  destruct (snd (exec_ops w (st_trace s)
                   (setup_steps (container_id w (st_rand s)) volumes)));
    [destruct (forallb two_parts volumes)|]; cbn [andb].
  all: cbv beta iota in Hres; destruct Hres as [-> _]; cbv beta iota in Hout, Hbody.
  - pose proof (run_tail_spec w (user_cmd (commandName :: commandArgs)) s1)
      as (Hcode & _).
    unfold run. rewrite (with_defers_Exit w _ s _ ltac:(rewrite Hbody; exact Hcode)).
    rewrite Hbody. cbn [snd]. rewrite (quiet_run_tail w _ s1). exact Hout.
  - unfold run. rewrite (with_defers_Exit w _ s 1 ltac:(rewrite Hbody; reflexivity)).
    rewrite Hbody. cbn [snd]. rewrite app_nil_r. exact Hout.
  - unfold run. rewrite (with_defers_Exit w _ s 1 ltac:(rewrite Hbody; reflexivity)).
    rewrite Hbody. cbn [snd]. rewrite app_nil_r. exact Hout.
Qed.

(** X16.  A child announces the command before it runs it.  It performs
    steps 1 to 5 (hostname, root filesystem, volumes, root switch, procfs)
    exactly as the world answers them.  When every volume string had two
    parts and all of these steps succeeded, it prints the one line
    [pid <pid> running <name>] on standard output and runs the command as
    its next and last operation.  When a step failed or a volume string had
    not two parts, it prints nothing on standard output, does not run the
    command, and exits with code 1. *)
Theorem child_announces_command (w : World) (Hw : rand_ok w) (commandName : string)
  (commandArgs volumes : list string) (s : State) :
  let args := commandName :: commandArgs in
  let steps := setup_steps (container_id w (st_rand s)) volumes in
  let out := run w args volumes true s in
  exists pre : list Event,
    fst (exec_ops w (st_trace s) steps) = st_trace s ++ pre /\
    ((forallb two_parts volumes = true /\
      all_succeeded steps pre /\
      (exists e : Event,
         st_trace (snd out) = st_trace s ++ pre ++ [e] /\
         ev_op e = Run (user_cmd args)) /\
      st_stdout (snd out) =
        st_stdout s ++
        [[VString "pid"; VInt (Getpid w); VString "running"; VString commandName]]) \/
     ((stopped_at_failure pre \/
       (forallb two_parts volumes = false /\ all_succeeded steps pre)) /\
      st_trace (snd out) = st_trace s ++ pre /\
      fst out = Exit 1 /\
      st_stdout (snd out) = st_stdout s)).
Proof.
  intros args steps out.
  pose proof (run_child w Hw commandName commandArgs volumes s) as H.
  pose proof (run_child_stdout w Hw commandName commandArgs volumes s) as Hout.
  cbv zeta in H. fold args steps out in H, Hout.
  destruct (exec_ops_spec w steps (st_trace s)) as (pre & Hpre & _ & Hend).
  exists pre. split; [exact Hpre|].
  destruct (snd (exec_ops w (st_trace s) steps)) eqn:Hok;
    [destruct (forallb two_parts volumes) eqn:Hwf|]; cbn [andb] in H, Hout.
  - destruct H as (_ & Htr & _). rewrite Hpre in Htr.
    left. split; [reflexivity|]. split; [exact Hend|]. split; [|exact Hout].
    eexists. split; [rewrite Htr, <- app_assoc; reflexivity | reflexivity].
  - destruct H as (Hcode & Htr & _). rewrite Hpre in Htr.
    right. split; [right; split; [reflexivity | exact Hend]|].
    split; [exact Htr|]. split; [exact Hcode|]. rewrite Hout, app_nil_r. reflexivity.
  - destruct H as (Hcode & Htr & _). rewrite Hpre in Htr.
    right. split; [left; exact Hend|].
    split; [exact Htr|]. split; [exact Hcode|]. rewrite Hout, app_nil_r. reflexivity.
Qed.

Lemma child_announces_command_witness :
  exists pre : list Event,
    fst (exec_ops calm (st_trace init_state)
           (setup_steps (container_id calm (st_rand init_state)) [])) =
      st_trace init_state ++ pre.
Proof.
  destruct (child_announces_command calm calm_rand_ok "/bin/echo" ["hello"] []
              init_state) as (pre & Htie & _).
  exists pre. exact Htie.
Defined.

Example child_announces_command_calm :
  st_stdout (snd (run calm ["/bin/echo"; "hello"] [] true init_state)) =
    [[VString "pid"; VInt 1; VString "running"; VString "/bin/echo"]].
Proof. reflexivity. Qed.
